(** * Row-id audit and rebase tool: a shallow embedding

    The repository holds two variants of one command-line program.

    - [src/unnamed/part_000] has a [-mode] flag ([compare] or [rebase]) and
      keeps the collected facts in a slice ([[]tableInfo]); it is embedded in
      [Module Audit].
    - [src/main.go] only rebases, has a [-dry-run] flag and keeps the
      collected maxima in a Go map ([map[tableIdentifier]int64]); it is
      embedded in [Module ForceRebase].

    Both share [getTablesInSchema] and [getMaxRowID], which are embedded once.

    The database is an external collaborator.  A run is modelled as the list
    of observable events it produces (statements sent to the server, lines on
    standard output, lines on the diagnostic log), given the answers of the
    server.  The answers are a function of the statement text.

    [strings.ToUpper], which the comparison calls on the column names, is not
    code of the repository: it is a parameter ([GoStrings]) of the functions
    that use it, and the theorems hold for every function in its place. *)

From stdpp Require Import gmap strings list fin_maps.
From Stdlib Require Import ZArith Lia Ascii String DecimalString.
From Stdlib Require DecimalPos DecimalZ.

Local Open Scope string_scope.
Local Open Scope list_scope.
Local Open Scope Z_scope.

(** ** Machine integers: Go's [int64] *)

Definition min_int64 : Z := - 2 ^ 63.
Definition max_int64 : Z := 2 ^ 63 - 1.

Definition in_int64 (z : Z) : Prop := min_int64 <= z <= max_int64.

(** Two's complement wrap-around of a mathematical integer into [int64]. *)
Definition wrap64 (z : Z) : Z := (z + 2 ^ 63) mod 2 ^ 64 - 2 ^ 63.

(** Go's [a + b] on [int64]: overflow wraps silently. *)
Definition add64 (a b : Z) : Z := wrap64 (a + b).

(** ** Strings *)

(** The verb [%d] of [fmt]: decimal digits, with a leading minus sign for a
    negative number. *)
Definition fmt_d (z : Z) : string := NilZero.string_of_int (Z.to_int z).

Definition upper_ascii (c : ascii) : ascii :=
  let n := nat_of_ascii c in
  if (97 <=? n)%nat && (n <=? 122)%nat then ascii_of_nat (n - 32) else c.

(** The letters a to z mapped to upper case, every other byte kept: what
    [strings.ToUpper] computes on ASCII text. *)
Fixpoint asciiToUpper (s : string) : string :=
  match s with
  | EmptyString => EmptyString
  | String c r => String (upper_ascii c) (asciiToUpper r)
  end.

(** [strings.ToUpper] belongs to Go's library, not to the repository, and
    maps the letters of all of Unicode.  The embedding takes it as a
    parameter: the functions that call it and the theorems about them hold
    for every function from strings to strings. *)
Class GoStrings : Type := { ToUpper : string -> string }.

(** [strings.Split(s, ",")], with the field being read kept in [cur]. *)
Fixpoint split_comma (cur : string) (s : string) : list string :=
  match s with
  | EmptyString => [cur]
  | String c r =>
      if Ascii.eqb c ","%char then cur :: split_comma EmptyString r
      else split_comma (cur +:+ String c EmptyString) r
  end.

Definition Split (s : string) : list string := split_comma EmptyString s.

Definition newline : string := String (ascii_of_nat 10) EmptyString.

(** ** Errors *)

(** Go's [error] values that the program can see.  A nil error is [None] in
    an [option error]. *)
Inductive error : Type :=
| MySQLError (Number : Z) (Message : string)   (* *mysql.MySQLError *)
| OtherError (msg : string)                    (* any other error value *)
| Errorf (context : string) (err : error).     (* fmt.Errorf("context: %w", err) *)

Inductive result (A : Type) : Type :=
| Ok (a : A)
| Failed (err : error).
Arguments Ok {A} a.
Arguments Failed {A} err.

(** [unknownColumnError.Is(err)] with [unknownColumnError.Number = 1054]: the
    method compares the numbers when [err] is itself a [*MySQLError] and is
    false for every other error and for nil. *)
Definition unknownColumnError_Is (err : option error) : bool :=
  match err with
  | Some (MySQLError n _) => n =? 1054
  | _ => false
  end.

(** ** The database collaborator *)

(** One value of a result row, seen through what [Rows.Scan] makes of it:
    [as_string] is the text stored into a [*string] destination and
    [as_int64] the number stored into a [*int64] destination; [None] is a
    conversion error (a NULL, or text that is not a number).  Scanning into
    [*sql.RawBytes] never fails. *)
Record cell : Type := Cell { as_string : option string; as_int64 : option Z }.

(** Destinations handed to [rows.Scan]. *)
Inductive dest : Type := DString | DInt64 | DRawBytes.

(** A result set ([*sql.Rows]): the answer of [rows.Columns()], the rows that
    [rows.Next()] yields in order, the answer of [rows.Err()] once [Next] has
    returned false, and the error that [rows.Scan] returns when a row cannot
    be scanned into the given destinations.  That error is built by
    [database/sql] from the position and the name of the column as the result
    set has it and from the value, so it is part of the answer. *)
Record Rows : Type := MkRows {
  Columns : result (list string);
  Data : list (list cell);
  Err : option error;
  ScanError : list dest -> list cell -> error
}.

(** The connection ([*sql.DB]) with the four operations the program uses.
    [QueryRowScan q] is [db.QueryRow(q).Scan(&maxID)] for a [maxID] that is
    zero before the call: it answers the value of [maxID] after the call and
    the error returned.  [Row.Scan] stores the value first and then returns
    the error of closing the row set, so a stored value and an error can come
    together. *)
Record DB : Type := MkDB {
  Open : string -> option error;
  Query : string -> result Rows;
  QueryRowScan : string -> Z * option error;
  Exec : string -> option error
}.

Inductive scanned : Type := VString (s : string) | VInt64 (z : Z) | VRaw.

Definition scan_cell (d : dest) (c : cell) : option scanned :=
  match d with
  | DString => VString <$> as_string c
  | DInt64 => VInt64 <$> as_int64 c
  | DRawBytes => Some VRaw
  end.

Fixpoint scan_cells (ds : list dest) (row : list cell) : option (list scanned) :=
  match ds, row with
  | [], [] => Some []
  | d :: ds', c :: row' =>
      match scan_cell d c with
      | Some v => (fun vs => v :: vs) <$> scan_cells ds' row'
      | None => None
      end
  | _, _ => None
  end.

(** [rows.Scan(dest...)]: fails when the number of destinations is not the
    number of columns of the row or when a value cannot be converted, with
    the error of the result set for these destinations and this row. *)
Definition Scan (rows : Rows) (ds : list dest) (row : list cell) : result (list scanned) :=
  match scan_cells ds row with
  | Some vs => Ok vs
  | None => Failed (ScanError rows ds row)
  end.

(** ** Observable events of a run *)

(** Lines of the diagnostic log ([log.Printf], [log.Println]), one
    constructor per format string of the source. *)
Inductive logline : Type :=
| LogTargetSchemas (schemas : list string)          (* "# Target Schemas: %v" *)
| LogConnected                                      (* "# Database connection successful." *)
| LogProcessingSchema (schema : string)             (* "# Processing schema: %s" *)
| LogSkipSchema (schema : string) (err : error)     (* "! Error getting tables for schema %s: %v. Skipping schema." *)
| LogSkipTable (schema table : string) (err : error)(* "!    Skipping table %s.%s: %v." *)
| LogCollected                                      (* "# Finished collecting max row IDs." *)
| LogStarting                                       (* "# Starting execution..." / "# Starting AUTO_INCREMENT updates..." *)
| LogStatement (query : string)                     (* ">>> %s;" *)
| LogActionError (schema table : string) (err : error)
                                                    (* "!    Error executing for %s.%s: %v" / "!    Error updating AUTO_INCREMENT for %s.%s: %v" *)
| LogFinished                                       (* "# Execution finished." / "# AUTO_INCREMENT update process finished." *)
| LogInvalidMode                                    (* "! Invalid mode specified. Use 'compare' or 'rebase'." *)
| LogOpenError (err : error).                       (* "! Error opening database connection: %v" *)

Inductive event : Type :=
| Stdout (line : string)       (* fmt.Println, fmt.Printf *)
| Log (l : logline)            (* log.Printf, log.Println *)
| Usage                        (* flag.Usage() *)
| Fatal (l : logline)          (* log.Fatalf: the line, then os.Exit(1) *)
| SqlOpen (dsn : string)       (* sql.Open("mysql", dsn) *)
| SqlQuery (q : string)        (* db.Query(q) *)
| SqlQueryRow (q : string)     (* db.QueryRow(q) *)
| SqlExec (q : string).        (* db.Exec(q) *)

(** ** Functions shared by the two variants *)

Definition showTablesQuery (schemaName : string) : string :=
  "SHOW TABLES FROM `" +:+ schemaName +:+ "`".

(** The loop [for rows.Next() { rows.Scan(&tableName); tables = append(...) }]
    of [getTablesInSchema]. *)
Fixpoint scanTableNames (schemaName : string) (rows : Rows) (data : list (list cell))
    (tables : list string) : result (list string) :=
  match data with
  | [] => Ok tables
  | row :: rest =>
      match Scan rows [DString] row with
      | Ok [VString tableName] =>
          scanTableNames schemaName rows rest (tables ++ [tableName])
      | Ok _ =>
          Failed (Errorf ("scanning table name for schema '" +:+ schemaName +:+ "'")
                         (ScanError rows [DString] row))
      | Failed err =>
          Failed (Errorf ("scanning table name for schema '" +:+ schemaName +:+ "'") err)
      end
  end.

Definition getTablesInSchema (db : DB) (schemaName : string)
    : list event * result (list string) :=
  let query := showTablesQuery schemaName in
  ([SqlQuery query],
   match Query db query with
   | Failed err => Failed (Errorf ("querying tables for schema '" +:+ schemaName +:+ "'") err)
   | Ok rows =>
       match scanTableNames schemaName rows (Data rows) [] with
       | Failed err => Failed err
       | Ok tables =>
           match Err rows with
           | Some err => Failed (Errorf ("iterating table rows for schema '" +:+ schemaName +:+ "'") err)
           | None => Ok tables
           end
       end
   end).

Definition maxRowIDQuery (schemaName tableName : string) : string :=
  "SELECT coalesce(max(_tidb_rowid), 0) FROM `" +:+ schemaName +:+ "`.`" +:+ tableName +:+ "`".

Definition getMaxRowID (db : DB) (schemaName tableName : string)
    : list event * (Z * option error) :=
  let query := maxRowIDQuery schemaName tableName in
  let '(maxID, err) := QueryRowScan db query in
  ([SqlQueryRow query],
   if unknownColumnError_Is err then (0, None) else (maxID, err)).

(** ** The variant with a mode flag ([src/unnamed/part_000]) *)

Module Audit.

(** [tableInfo]: the fully-qualified table name and the calculated
    auto_increment value. *)
Record tableInfo : Type := MkTableInfo {
  Schema : string;
  Table : string;
  AutoInc : Z
}.

Inductive mode : Type := modeCompare | modeRebase.

Record flags : Type := MkFlags {
  host : string;
  port : string;
  user : string;
  password : string;
  modeString : string;
  schemaList : string
}.

Definition rebaseQuery (t : tableInfo) : string :=
  "ALTER TABLE `" +:+ Schema t +:+ "`.`" +:+ Table t +:+ "` AUTO_INCREMENT = "
    +:+ fmt_d (AutoInc t).

Definition rebaseAutoIncrement (db : DB) (t : tableInfo) : list event * option error :=
  let query := rebaseQuery t in
  ([Log (LogStatement query); SqlExec query],
   match Exec db query with
   | Some err =>
       Some (Errorf ("rebasing AUTO_INCREMENT for " +:+ Schema t +:+ "." +:+ Table t) err)
   | None => None
   end).

Definition nextRowIDQuery (t : tableInfo) : string :=
  "SHOW TABLE `" +:+ Schema t +:+ "`.`" +:+ Table t +:+ "` NEXT_ROW_ID".

(** The loop [for i, colName := range cols] that finds the indices of the
    required columns; both indices start at -1 and a later column of the same
    name replaces an earlier one. *)
Fixpoint findColumns {lib : GoStrings} (cols : list string) (i : Z)
    (idTypeIndex nextIDIndex : Z) : Z * Z :=
  match cols with
  | [] => (idTypeIndex, nextIDIndex)
  | colName :: rest =>
      let upper := ToUpper colName in
      if String.eqb upper "ID_TYPE" then findColumns rest (i + 1) i nextIDIndex
      else if String.eqb upper "NEXT_GLOBAL_ROW_ID" then findColumns rest (i + 1) idTypeIndex i
      else findColumns rest (i + 1) idTypeIndex nextIDIndex
  end.

(** [scanArgs]: a [*string] at [idTypeIndex], a [*int64] at [nextIDIndex] and
    a [*sql.RawBytes] everywhere else. *)
Definition makeScanArgs (n : nat) (idTypeIndex nextIDIndex : Z) : list dest :=
  map (fun i : nat =>
         if Z.of_nat i =? idTypeIndex then DString
         else if Z.of_nat i =? nextIDIndex then DInt64
         else DRawBytes)
      (seq 0 n).

(** Reading the string destination and the int64 destination of [scanArgs]
    at index [i]: the value the last scan stored; [new(string)] and
    [new(int64)] start empty and zero. *)
Definition stringAt (vs : list scanned) (i : Z) : string :=
  match vs !! Z.to_nat i with
  | Some (VString s) => s
  | _ => EmptyString
  end.

Definition int64At (vs : list scanned) (i : Z) : Z :=
  match vs !! Z.to_nat i with
  | Some (VInt64 z) => z
  | _ => 0
  end.

(** The format ["%s,%s,%d,%d,%s\n"] of the report line. *)
Definition csvLine (schema table : string) (expected current : Z) (status : string) : string :=
  schema +:+ "," +:+ table +:+ "," +:+ fmt_d expected +:+ "," +:+ fmt_d current
    +:+ "," +:+ status +:+ newline.

Definition statusOf (nextGlobalRowID autoInc : Z) : string :=
  if nextGlobalRowID >=? autoInc then "ok" else "ERROR".

(** The loop [for rows.Next() { ... }] of [compareAutoIncrement]: the lines
    printed and the error returned from inside the loop, if any. *)
Fixpoint compareRows (rows : Rows) (t : tableInfo) (scanArgs : list dest)
    (idTypeIndex nextIDIndex : Z) (data : list (list cell)) : list event * option error :=
  match data with
  | [] => ([], None)
  | row :: rest =>
      match Scan rows scanArgs row with
      | Failed err =>
          ([], Some (Errorf ("scanning row for schema '" +:+ Schema t +:+ "' table '"
                               +:+ Table t +:+ "'") err))
      | Ok vs =>
          if negb (String.eqb (stringAt vs idTypeIndex) "_TIDB_ROWID") then
            compareRows rows t scanArgs idTypeIndex nextIDIndex rest
          else
            let nextGlobalRowID := int64At vs nextIDIndex in
            let status := statusOf nextGlobalRowID (AutoInc t) in
            let '(out, err) := compareRows rows t scanArgs idTypeIndex nextIDIndex rest in
            (Stdout (csvLine (Schema t) (Table t) (AutoInc t) nextGlobalRowID status) :: out,
             err)
      end
  end.

Definition compareAutoIncrement {lib : GoStrings} (db : DB) (t : tableInfo)
    : list event * option error :=
  let query := nextRowIDQuery t in
  let name := Schema t +:+ "." +:+ Table t in
  match Query db query with
  | Failed err => ([SqlQuery query], Some (Errorf ("comparing NEXT_ROW_ID for " +:+ name) err))
  | Ok rows =>
      match Columns rows with
      | Failed err =>
          ([SqlQuery query],
           Some (Errorf ("getting columns for next row id query '" +:+ name +:+ "'") err))
      | Ok cols =>
          let '(idTypeIndex, nextIDIndex) := findColumns cols 0 (-1) (-1) in
          if (idTypeIndex =? -1) || (nextIDIndex =? -1) then
            ([SqlQuery query],
             Some (OtherError
                     ("required columns 'ID_TYPE' or 'NEXT_GLOBAL_ROW_ID' not found in output of SHOW TABLE NEXT_ROW_ID for '"
                        +:+ name +:+ "'")))
          else
            let scanArgs := makeScanArgs (List.length cols) idTypeIndex nextIDIndex in
            let '(out, err) :=
              compareRows rows t scanArgs idTypeIndex nextIDIndex (Data rows) in
            (SqlQuery query :: out,
             match err with
             | Some e => Some e
             | None =>
                 match Err rows with
                 | Some e =>
                     Some (Errorf ("iterating next row id results for '" +:+ name +:+ "'") e)
                 | None => None
                 end
             end)
      end
  end.

(** The inner loop of the collection phase, [for _, table := range tables],
    threading the slice [tableInfos]. *)
Fixpoint collectTables (db : DB) (schema : string) (tables : list string)
    (tableInfos : list tableInfo) : list event * list tableInfo :=
  match tables with
  | [] => ([], tableInfos)
  | table :: rest =>
      let '(ev, (maxID, err)) := getMaxRowID db schema table in
      if maxID =? 0 then
        let warn := match err with
                    | Some e => [Log (LogSkipTable schema table e)]
                    | None => []
                    end in
        let '(ev', tableInfos') := collectTables db schema rest tableInfos in
        (ev ++ warn ++ ev', tableInfos')
      else
        let '(ev', tableInfos') :=
          collectTables db schema rest
            (tableInfos ++ [MkTableInfo schema table (add64 maxID 1)]) in
        (ev ++ ev', tableInfos')
  end.

(** The outer loop, [for _, schema := range schemas]. *)
Fixpoint collectSchemas (db : DB) (schemas : list string) (tableInfos : list tableInfo)
    : list event * list tableInfo :=
  match schemas with
  | [] => ([], tableInfos)
  | schema :: rest =>
      let '(ev, tables) := getTablesInSchema db schema in
      match tables with
      | Failed err =>
          let '(ev', tableInfos') := collectSchemas db rest tableInfos in
          (Log (LogProcessingSchema schema) :: ev ++ Log (LogSkipSchema schema err) :: ev',
           tableInfos')
      | Ok tables =>
          let '(evt, tableInfos1) := collectTables db schema tables tableInfos in
          let '(ev', tableInfos') := collectSchemas db rest tableInfos1 in
          (Log (LogProcessingSchema schema) :: ev ++ evt ++ ev', tableInfos')
      end
  end.

(** One iteration of the execution loop: the action chosen by the mode, then
    the log line when it returned an error. *)
Definition executeOne {lib : GoStrings} (m : mode) (db : DB) (t : tableInfo) : list event :=
  let '(ev, err) := match m with
                    | modeRebase => rebaseAutoIncrement db t
                    | modeCompare => compareAutoIncrement db t
                    end in
  ev ++ match err with
        | Some e => [Log (LogActionError (Schema t) (Table t) e)]
        | None => []
        end.

(** The execution loop, [for _, t := range tableInfos]. *)
Fixpoint execute {lib : GoStrings} (m : mode) (db : DB) (tableInfos : list tableInfo)
    : list event :=
  match tableInfos with
  | [] => []
  | t :: rest => executeOne m db t ++ execute m db rest
  end.

Definition parseMode (s : string) : option mode :=
  if String.eqb s "compare" then Some modeCompare
  else if String.eqb s "rebase" then Some modeRebase
  else None.

Definition header : string := "Schema,Table,Expected,Current,Status" +:+ newline.

Definition dataSourceName (f : flags) : string :=
  user f +:+ ":" +:+ password f +:+ "@tcp(" +:+ host f +:+ ":" +:+ port f +:+ ")/".

(** [main]: the events of the whole run, in order. *)
Definition main {lib : GoStrings} (f : flags) (db : DB) : list event :=
  match parseMode (modeString f) with
  | None => [Usage; Fatal LogInvalidMode]
  | Some m =>
      let banner := match m with
                    | modeCompare => [Stdout header]
                    | modeRebase => []
                    end in
      let schemas := Split (schemaList f) in
      let dsn := dataSourceName f in
      banner ++ [Log (LogTargetSchemas schemas); SqlOpen dsn] ++
      match Open db dsn with
      | Some err => [Fatal (LogOpenError err)]
      | None =>
          let '(ev, tableInfos) := collectSchemas db schemas [] in
          [Log LogConnected] ++ ev ++ [Log LogCollected; Log LogStarting]
            ++ execute m db tableInfos ++ [Log LogFinished]
      end
  end.

(** *** What one table and one schema contribute to the collection phase *)

(** The value [maxID] that the collection loop sees for a table. *)
Definition observedMax (db : DB) (schema table : string) : Z :=
  (getMaxRowID db schema table).2.1.

Definition tableFacts (db : DB) (schema table : string) : list tableInfo :=
  if observedMax db schema table =? 0 then []
  else [MkTableInfo schema table (add64 (observedMax db schema table) 1)].

Definition tableEvents (db : DB) (schema table : string) : list event :=
  let '(ev, (maxID, err)) := getMaxRowID db schema table in
  ev ++ if maxID =? 0
        then match err with
             | Some e => [Log (LogSkipTable schema table e)]
             | None => []
             end
        else [].

Definition schemaFacts (db : DB) (schema : string) : list tableInfo :=
  match (getTablesInSchema db schema).2 with
  | Ok tables => flat_map (tableFacts db schema) tables
  | Failed _ => []
  end.

Definition schemaEvents (db : DB) (schema : string) : list event :=
  Log (LogProcessingSchema schema) :: (getTablesInSchema db schema).1 ++
  match (getTablesInSchema db schema).2 with
  | Ok tables => flat_map (tableEvents db schema) tables
  | Failed err => [Log (LogSkipSchema schema err)]
  end.

(** The statement that the action of a mode sends for a fact. *)
Definition actionQuery (m : mode) (t : tableInfo) : string :=
  match m with
  | modeRebase => rebaseQuery t
  | modeCompare => nextRowIDQuery t
  end.

(** What a successful scan of a metadata row leaves in the two destinations
    the comparison reads: the scheme name and the next global row id. *)
Definition scansTo (cols : list string) (idTypeIndex nextIDIndex : Z)
    (row : list cell) (view : string * Z) : Prop :=
  ∃ vs, scan_cells (makeScanArgs (List.length cols) idTypeIndex nextIDIndex) row = Some vs
        ∧ stringAt vs idTypeIndex = view.1 ∧ int64At vs nextIDIndex = view.2.

Definition isRowID (view : string * Z) : bool := String.eqb view.1 "_TIDB_ROWID".

Definition reportLine (t : tableInfo) (view : string * Z) : event :=
  Stdout (csvLine (Schema t) (Table t) (AutoInc t) view.2 (statusOf view.2 (AutoInc t))).

End Audit.

(** ** The variant with a dry-run flag ([src/main.go]) *)

Module ForceRebase.

(** [tableIdentifier] uniquely identifies a table across schemas; it is the
    key of the Go map [maxRowIDs]. *)
Record tableIdentifier : Type := MkTableIdentifier {
  Schema : string;
  Table : string
}.

#[global] Instance tableIdentifier_eq_dec : EqDecision tableIdentifier.
Proof. solve_decision. Defined.

#[global] Instance tableIdentifier_countable : Countable tableIdentifier.
Proof.
  refine (inj_countable' (fun t => (Schema t, Table t))
                         (fun p => MkTableIdentifier p.1 p.2) _).
  intros []. reflexivity.
Defined.

Record flags : Type := MkFlags {
  host : string;
  port : string;
  user : string;
  password : string;
  dryRun : bool;
  schemaList : string
}.

(** The inner loop of the collection phase, threading the map [maxRowIDs];
    [maxRowIDs[tableID] = maxID] replaces an entry that is already there. *)
Fixpoint collectTables (db : DB) (schema : string) (tables : list string)
    (maxRowIDs : gmap tableIdentifier Z) : list event * gmap tableIdentifier Z :=
  match tables with
  | [] => ([], maxRowIDs)
  | table :: rest =>
      let '(ev, (maxID, err)) := getMaxRowID db schema table in
      if maxID =? 0 then
        let warn := match err with
                    | Some e => [Log (LogSkipTable schema table e)]
                    | None => []
                    end in
        let '(ev', maxRowIDs') := collectTables db schema rest maxRowIDs in
        (ev ++ warn ++ ev', maxRowIDs')
      else
        let tableID := MkTableIdentifier schema table in
        let '(ev', maxRowIDs') :=
          collectTables db schema rest (<[tableID := maxID]> maxRowIDs) in
        (ev ++ ev', maxRowIDs')
  end.

Fixpoint collectSchemas (db : DB) (schemas : list string)
    (maxRowIDs : gmap tableIdentifier Z) : list event * gmap tableIdentifier Z :=
  match schemas with
  | [] => ([], maxRowIDs)
  | schema :: rest =>
      let '(ev, tables) := getTablesInSchema db schema in
      match tables with
      | Failed err =>
          let '(ev', maxRowIDs') := collectSchemas db rest maxRowIDs in
          (Log (LogProcessingSchema schema) :: ev ++ Log (LogSkipSchema schema err) :: ev',
           maxRowIDs')
      | Ok tables =>
          let '(evt, maxRowIDs1) := collectTables db schema tables maxRowIDs in
          let '(ev', maxRowIDs') := collectSchemas db rest maxRowIDs1 in
          (Log (LogProcessingSchema schema) :: ev ++ evt ++ ev', maxRowIDs')
      end
  end.

Definition alterQuery (tableID : tableIdentifier) (newAutoIncrement : Z) : string :=
  "ALTER TABLE `" +:+ Schema tableID +:+ "`.`" +:+ Table tableID +:+ "` AUTO_INCREMENT = "
    +:+ fmt_d newAutoIncrement.

(** The body of the update loop for one entry of the map. *)
Definition updateOne (dry : bool) (db : DB) (entry : tableIdentifier * Z) : list event :=
  let '(tableID, maxID) := entry in
  let newAutoIncrement := add64 maxID 1 in
  let query := alterQuery tableID newAutoIncrement in
  Log (LogStatement query) ::
  if negb dry then
    SqlExec query ::
    match Exec db query with
    | Some err => [Log (LogActionError (Schema tableID) (Table tableID) err)]
    | None => []
    end
  else [].

(** The update loop over the entries in the order the [range] statement
    visits them. *)
Fixpoint update (dry : bool) (db : DB) (entries : list (tableIdentifier * Z)) : list event :=
  match entries with
  | [] => []
  | entry :: rest => updateOne dry db entry ++ update dry db rest
  end.

Definition dataSourceName (f : flags) : string :=
  user f +:+ ":" +:+ password f +:+ "@tcp(" +:+ host f +:+ ":" +:+ port f +:+ ")/".

(** The map at the end of the collection phase. *)
Definition collected (f : flags) (db : DB) : gmap tableIdentifier Z :=
  (collectSchemas db (Split (schemaList f)) ∅).2.

(** [main] when [for tableID, maxID := range maxRowIDs] visits the entries
    in the order [order]. *)
Definition main (f : flags) (db : DB) (order : list (tableIdentifier * Z)) : list event :=
  let schemas := Split (schemaList f) in
  let dsn := dataSourceName f in
  [Log (LogTargetSchemas schemas); SqlOpen dsn] ++
  match Open db dsn with
  | Some err => [Fatal (LogOpenError err)]
  | None =>
      [Log LogConnected] ++ (collectSchemas db schemas ∅).1
        ++ [Log LogCollected; Log LogStarting]
        ++ update (dryRun f) db order ++ [Log LogFinished]
  end.

(** Go leaves the iteration order of a map unspecified: a [range] visits
    every entry exactly once, in some order. *)
Definition rangeOrder (m : gmap tableIdentifier Z) (order : list (tableIdentifier * Z)) : Prop :=
  order ≡ₚ map_to_list m.

(** The possible runs of the program. *)
Definition runs (f : flags) (db : DB) (trace : list event) : Prop :=
  ∃ order, rangeOrder (collected f db) order ∧ trace = main f db order.

End ForceRebase.

(** ** Reading a trace *)

(** The statements sent to the server by [db.Query] and [db.Exec], in order. *)
Fixpoint statementsSent (trace : list event) : list string :=
  match trace with
  | [] => []
  | SqlQuery q :: rest => q :: statementsSent rest
  | SqlExec q :: rest => q :: statementsSent rest
  | _ :: rest => statementsSent rest
  end.

(** The statements passed to [db.Exec], in order. *)
Fixpoint execStatements (trace : list event) : list string :=
  match trace with
  | [] => []
  | SqlExec q :: rest => q :: execStatements rest
  | _ :: rest => execStatements rest
  end.

(** The statements logged as [">>> %s;"], in order. *)
Fixpoint loggedStatements (trace : list event) : list string :=
  match trace with
  | [] => []
  | Log (LogStatement q) :: rest => q :: loggedStatements rest
  | _ :: rest => loggedStatements rest
  end.

(** The lines written to standard output, in order. *)
Fixpoint stdoutLines (trace : list event) : list string :=
  match trace with
  | [] => []
  | Stdout line :: rest => line :: stdoutLines rest
  | _ :: rest => stdoutLines rest
  end.

(** An event that reaches the database driver. *)
Definition touchesDatabase (e : event) : bool :=
  match e with
  | SqlOpen _ | SqlQuery _ | SqlQueryRow _ | SqlExec _ => true
  | _ => false
  end.

(** Two servers that answer alike, except possibly when the statement [q0]
    is passed to [db.Query] or to [db.Exec]. *)
Definition sameAnswersExcept (q0 : string) (db db' : DB) : Prop :=
  (∀ dsn, Open db dsn = Open db' dsn)
  ∧ (∀ q, q ≠ q0 → Query db q = Query db' q)
  ∧ (∀ q, QueryRowScan db q = QueryRowScan db' q)
  ∧ (∀ q, q ≠ q0 → Exec db q = Exec db' q).

(** ** Servers used in the examples *)

(** The error that the example answers give for a row that does not scan. *)
Definition scan_error : error := OtherError "sql: Scan error".

Definition exampleScanError (ds : list dest) (row : list cell) : error := scan_error.

(** The examples run with [asciiToUpper] in the place of [strings.ToUpper];
    their column names are ASCII text, on which the two agree. *)
Definition asciiStrings : GoStrings := {| ToUpper := asciiToUpper |}.

#[local] Existing Instance asciiStrings.

(** A server with one schema holding one table [t]; the lookup of the
    maximum row id leaves [maxID] in the destination and returns [err]. *)
Definition oneTable (maxID : Z) (err : option error) : DB :=
  MkDB (fun _ => None)
       (fun _ => Ok (MkRows (Ok ["Tables_in_db"]) [[Cell (Some "t") None]] None
                            exampleScanError))
       (fun _ => (maxID, err))
       (fun _ => None).

(** The error of closing a row set after its row was read. *)
Definition closeError : error := OtherError "invalid connection".

(** The metadata answer of the specification's example: two rows, one of an
    unrelated scheme and one of the implicit row id, under the columns that
    the server reports. *)
Definition exampleNextRowID : Rows :=
  MkRows (Ok ["DB_NAME"; "TABLE_NAME"; "COLUMN_NAME"; "NEXT_GLOBAL_ROW_ID"; "ID_TYPE"])
         [ [Cell (Some "db") None; Cell (Some "t") None; Cell (Some "id") None;
            Cell (Some "999") (Some 999); Cell (Some "OTHER") None];
           [Cell (Some "db") None; Cell (Some "t") None; Cell (Some "_tidb_rowid") None;
            Cell (Some "50") (Some 50); Cell (Some "_TIDB_ROWID") None] ]
         None exampleScanError.

Definition exampleServer : DB :=
  MkDB (fun _ => None) (fun _ => Ok exampleNextRowID) (fun _ => (0, None)) (fun _ => None).

(** A metadata answer that lacks the column of the scheme name. *)
Definition serverWithoutIdType : DB :=
  MkDB (fun _ => None)
       (fun _ => Ok (MkRows (Ok ["DB_NAME"; "NEXT_GLOBAL_ROW_ID"])
                            [[Cell (Some "db") None; Cell (Some "50") (Some 50)]] None
                            exampleScanError))
       (fun _ => (0, None))
       (fun _ => None).

(** The number of backtick characters of a text.  In a statement built of
    keywords, numbers and quoted identifiers every quoted identifier takes an
    even number of them: one to open, one to close, and two for each backtick
    inside the name. *)
Fixpoint countBackticks (s : string) : nat :=
  match s with
  | EmptyString => 0%nat
  | String c r => ((if Ascii.eqb c "`"%char then 1 else 0) + countBackticks r)%nat
  end.

(** A server on which the enumeration of the schema [bad] fails; every
    other schema holds one table [t] whose maximum row id is 7. *)
Definition failingSchemaServer : DB :=
  MkDB (fun _ => None)
       (fun q => if String.eqb q "SHOW TABLES FROM `bad`"
                 then Failed (MySQLError 1049 "Unknown database 'bad'")
                 else Ok (MkRows (Ok ["Tables_in_db"]) [[Cell (Some "t") None]] None
                            exampleScanError))
       (fun _ => (7, None))
       (fun _ => None).

(** A server with one schema holding the tables [a] and [b], in this order,
    each with the maximum row id 1. *)
Definition twoTables : DB :=
  MkDB (fun _ => None)
       (fun _ => Ok (MkRows (Ok ["Tables_in_db"])
                            [[Cell (Some "a") None]; [Cell (Some "b") None]] None
                            exampleScanError))
       (fun _ => (1, None))
       (fun _ => None).

Definition rebaseFlags (dry : bool) (schemas : string) : ForceRebase.flags :=
  ForceRebase.MkFlags "127.0.0.1" "4000" "root" "" dry schemas.

Definition auditFlags (mode schemas : string) : Audit.flags :=
  Audit.MkFlags "127.0.0.1" "4000" "root" "" mode schemas.

(** ** Further readers used in the statements *)

(** The statements passed to [db.QueryRow], in order. *)
Fixpoint queryRowStatements (trace : list event) : list string :=
  match trace with
  | [] => []
  | SqlQueryRow q :: rest => q :: queryRowStatements rest
  | _ :: rest => queryRowStatements rest
  end.

(** [strings.Join(fields, ",")], the inverse of [Split]. *)
Fixpoint Join (fields : list string) : string :=
  match fields with
  | [] => EmptyString
  | [field] => field
  | field :: rest => field +:+ "," +:+ Join rest
  end.

(** A result row of SHOW TABLES that scans into the table name [name]: one
    value, readable as that string. *)
Definition nameRow (row : list cell) (name : string) : Prop :=
  ∃ c, row = [c] ∧ as_string c = Some name.

(** Whether a text holds a comma. *)
Fixpoint hasComma (s : string) : bool :=
  match s with
  | EmptyString => false
  | String c r => Ascii.eqb c ","%char || hasComma r
  end.

(** The example answer with the column names in lower case. *)
Definition exampleServerLowerCase : DB :=
  MkDB (fun _ => None)
       (fun _ => Ok (MkRows (Ok ["db_name"; "table_name"; "column_name";
                                 "next_global_row_id"; "id_type"])
                            (Data exampleNextRowID) None exampleScanError))
       (fun _ => (0, None))
       (fun _ => None).

(** A metadata answer whose second row has a NULL where the next global row
    id should be, followed by a third row; and the iteration error
    [closeError] at the end. *)
Definition rowsWithNull : Rows :=
  MkRows (Ok ["NEXT_GLOBAL_ROW_ID"; "ID_TYPE"])
         [ [Cell (Some "50") (Some 50); Cell (Some "_TIDB_ROWID") None];
           [Cell None None; Cell (Some "_TIDB_ROWID") None];
           [Cell (Some "70") (Some 70); Cell (Some "_TIDB_ROWID") None] ]
         None exampleScanError.

Definition serverWithNull : DB :=
  MkDB (fun _ => None) (fun _ => Ok rowsWithNull) (fun _ => (0, None)) (fun _ => None).

Definition rowsCutShort : Rows :=
  MkRows (Ok ["NEXT_GLOBAL_ROW_ID"; "ID_TYPE"])
         [ [Cell (Some "50") (Some 50); Cell (Some "_TIDB_ROWID") None] ]
         (Some closeError) exampleScanError.

Definition serverCutShort : DB :=
  MkDB (fun _ => None) (fun _ => Ok rowsCutShort) (fun _ => (0, None)) (fun _ => None).

(** The events that the collection phase can produce: queries, and log
    lines other than the log of a statement about to be executed. *)
Definition isCollectionEvent (e : event) : bool :=
  match e with
  | SqlQuery _ | SqlQueryRow _ => true
  | Log (LogStatement _) => false
  | Log _ => true
  | _ => false
  end.

(** A server that refuses every data source name. *)
Definition unreachableServer : DB :=
  MkDB (fun _ => Some (OtherError "invalid DSN"))
       (fun _ => Failed closeError) (fun _ => (0, Some closeError)) (fun _ => Some closeError).

(** A server on which every statement passed to [db.Exec] fails. *)
Definition readOnlyServer : DB :=
  MkDB (fun _ => None)
       (fun _ => Ok (MkRows (Ok ["Tables_in_db"])
                            [[Cell (Some "a") None]; [Cell (Some "b") None]] None
                            exampleScanError))
       (fun _ => (1, None))
       (fun _ => Some (MySQLError 1142 "ALTER command denied")).

(** [strings.ToUpper] maps the dotless i (U+0131) to I.  A function in its
    place that does so for the column name spelled with that letter and is
    [asciiToUpper] on every other name, and a metadata answer whose
    scheme-name column is spelled that way. *)
Definition dotlessStrings : GoStrings :=
  {| ToUpper := fun s => if String.eqb s "ıd_type" then "ID_TYPE" else asciiToUpper s |}.

Definition dotlessServer : DB :=
  MkDB (fun _ => None)
       (fun _ => Ok (MkRows (Ok ["NEXT_GLOBAL_ROW_ID"; "ıd_type"])
                            [[Cell (Some "50") (Some 50); Cell (Some "_TIDB_ROWID") None]]
                            None exampleScanError))
       (fun _ => (0, None))
       (fun _ => None).

(** * Properties *)

Arguments getTablesInSchema : simpl never.
Arguments getMaxRowID : simpl never.

(** ** Arithmetic on [int64] *)

Lemma wrap64_in_range (z : Z) : in_int64 z → wrap64 z = z.
Proof.
  unfold in_int64, wrap64, min_int64, max_int64. intros Hz.
  rewrite Z.mod_small; lia.
Qed.

Lemma add64_one_below_max (m : Z) : min_int64 <= m < max_int64 → add64 m 1 = m + 1.
Proof.
  intros Hm. unfold add64. apply wrap64_in_range.
  unfold in_int64, min_int64, max_int64 in *. lia.
Qed.

Lemma add64_one_at_max : add64 max_int64 1 = min_int64.
Proof. reflexivity. Qed.

(** ** The collection phase, in closed form *)

Section Collection.
Import Audit.
Context {lib : GoStrings}.
Variable db : DB.

Lemma getMaxRowID_events schema table :
  (getMaxRowID db schema table).1 = [SqlQueryRow (maxRowIDQuery schema table)].
Proof. unfold getMaxRowID. destruct (QueryRowScan db _). reflexivity. Qed.

Lemma collectTables_closed schema tables tableInfos :
  collectTables db schema tables tableInfos
  = (flat_map (tableEvents db schema) tables,
     tableInfos ++ flat_map (tableFacts db schema) tables).
Proof.
  revert tableInfos. induction tables as [|table rest IH]; intros tableInfos.
  - cbn. by rewrite app_nil_r.
  - cbn [collectTables flat_map].
    unfold tableEvents at 1, tableFacts at 1, observedMax.
    destruct (getMaxRowID db schema table) as [ev [maxID err]]; cbn [fst snd].
    destruct (maxID =? 0); rewrite IH.
    + by rewrite <- app_assoc.
    + by rewrite app_nil_r, <- app_assoc.
Qed.

Lemma collectSchemas_closed schemas tableInfos :
  collectSchemas db schemas tableInfos
  = (flat_map (schemaEvents db) schemas,
     tableInfos ++ flat_map (schemaFacts db) schemas).
Proof.
  revert tableInfos. induction schemas as [|schema rest IH]; intros tableInfos.
  - cbn. by rewrite app_nil_r.
  - cbn [collectSchemas flat_map].
    unfold schemaEvents at 1, schemaFacts at 1.
    destruct (getTablesInSchema db schema) as [ev [tables|err]]; cbn [fst snd].
    + rewrite collectTables_closed, IH. cbn [app].
      by rewrite <- !app_assoc.
    + rewrite IH. cbn [app]. by rewrite <- app_assoc.
Qed.

Lemma execute_app m l1 l2 :
  execute m db (l1 ++ l2) = execute m db l1 ++ execute m db l2.
Proof.
  induction l1 as [|t l1 IH]; simpl; [done|]. by rewrite IH, app_assoc.
Qed.
End Collection.

(** ** The proposed AUTO_INCREMENT value *)

(** Below the largest [int64] the proposed value is the successor of the
    observed maximum, in both variants. *)
Lemma proposed_autoinc_below_max (db : DB) (schema table : string) :
  0 < Audit.observedMax db schema table < max_int64 →
  Audit.tableFacts db schema table
  = [Audit.MkTableInfo schema table (Audit.observedMax db schema table + 1)].
Proof.
  intros Hm. unfold Audit.tableFacts.
  destruct (Z.eqb_spec (Audit.observedMax db schema table) 0) as [H0|_]; [lia|].
  rewrite add64_one_below_max; [done|]. unfold min_int64. lia.
Qed.

(** C1, at the input where the code departs from it: for a table whose
    observed maximum row id is the largest [int64], the addition
    [maxID + 1] wraps.  The fact records the smallest [int64], which is not
    the observed maximum plus one, and the rebase statement carries that
    negative number; the map-based variant sends the same statement. *)
Theorem autoinc_wraps_at_max_int64 {lib : GoStrings} :
  let db := oneTable max_int64 None in
  Audit.observedMax db "db" "t" = max_int64
  ∧ 0 < max_int64
  ∧ (Audit.collectSchemas db ["db"] []).2 = [Audit.MkTableInfo "db" "t" min_int64]
  ∧ min_int64 ≠ max_int64 + 1
  ∧ statementsSent (Audit.execute Audit.modeRebase db (Audit.collectSchemas db ["db"] []).2)
    = ["ALTER TABLE `db`.`t` AUTO_INCREMENT = -9223372036854775808"]
  ∧ execStatements
      (ForceRebase.update false db [(ForceRebase.MkTableIdentifier "db" "t", max_int64)])
    = ["ALTER TABLE `db`.`t` AUTO_INCREMENT = -9223372036854775808"].
Proof. vm_compute. repeat split; congruence. Qed.

(** ** Reading traces of the execution loop *)

Lemma statementsSent_app (a b : list event) :
  statementsSent (a ++ b) = statementsSent a ++ statementsSent b.
Proof.
  induction a as [|e a IH]; [done|].
  destruct e; cbn [app statementsSent]; rewrite IH; done.
Qed.

Lemma execStatements_app (a b : list event) :
  execStatements (a ++ b) = execStatements a ++ execStatements b.
Proof.
  induction a as [|e a IH]; [done|].
  destruct e; cbn [app execStatements]; rewrite IH; done.
Qed.

Lemma loggedStatements_app (a b : list event) :
  loggedStatements (a ++ b) = loggedStatements a ++ loggedStatements b.
Proof.
  induction a as [|e a IH]; [done|].
  destruct e as [| l | | | | | |]; cbn [app loggedStatements]; try (rewrite IH; done).
  destruct l; rewrite IH; done.
Qed.

Section ExecutionLoop.
Import Audit.
Context {lib : GoStrings}.
Variable db : DB.

(** The loop over the rows prints lines and sends nothing. *)
Lemma compareRows_sends_nothing rows t scanArgs i j data :
  statementsSent (compareRows rows t scanArgs i j data).1 = [].
Proof.
  induction data as [|row rest IH]; [done|].
  cbn [compareRows]. destruct (Scan rows scanArgs row) as [vs|err]; [|done].
  destruct (negb _); [done|].
  destruct (compareRows rows t scanArgs i j rest) as [out err]. exact IH.
Qed.

Lemma compareAutoIncrement_statements t :
  statementsSent (compareAutoIncrement db t).1 = [nextRowIDQuery t].
Proof.
  unfold compareAutoIncrement.
  destruct (Query db (nextRowIDQuery t)) as [rows|err]; [|done].
  destruct (Columns rows) as [cols|err]; [|done].
  destruct (findColumns cols 0 (-1) (-1)) as [i j].
  destruct (_ || _); [done|].
  pose proof (compareRows_sends_nothing rows t (makeScanArgs (List.length cols) i j) i j
                (Data rows)) as H.
  destruct (compareRows _ _ _ _ _ _) as [out err]. cbn [fst statementsSent] in *.
  by rewrite H.
Qed.

Lemma executeOne_statements m t :
  statementsSent (executeOne m db t) = [actionQuery m t].
Proof.
  unfold executeOne. destruct m.
  - pose proof (compareAutoIncrement_statements t) as H.
    destruct (compareAutoIncrement db t) as [ev err]. cbn [fst] in H.
    rewrite statementsSent_app, H. by destruct err.
  - unfold rebaseAutoIncrement. rewrite statementsSent_app. cbn.
    by destruct (Exec db (rebaseQuery t)).
Qed.

(** The execution loop sends one statement per fact, in the order of the
    slice. *)
Lemma execute_statements m tableInfos :
  statementsSent (execute m db tableInfos) = map (actionQuery m) tableInfos.
Proof.
  induction tableInfos as [|t rest IH]; [done|].
  cbn [execute map]. by rewrite statementsSent_app, executeOne_statements, IH.
Qed.
End ExecutionLoop.

(** ** Which tables get a fact *)

Lemma collected_fact_iff (db : DB) (schemas : list string) (t : Audit.tableInfo) :
  In t (Audit.collectSchemas db schemas []).2 ↔
  ∃ tables,
    In (Audit.Schema t) schemas
    ∧ (getTablesInSchema db (Audit.Schema t)).2 = Ok tables
    ∧ In (Audit.Table t) tables
    ∧ Audit.observedMax db (Audit.Schema t) (Audit.Table t) ≠ 0
    ∧ Audit.AutoInc t = add64 (Audit.observedMax db (Audit.Schema t) (Audit.Table t)) 1.
Proof.
  rewrite collectSchemas_closed. cbn [snd app]. rewrite in_flat_map. split.
  - intros (schema & Hs & Hin). unfold Audit.schemaFacts in Hin.
    destruct (getTablesInSchema db schema).2 as [tables|err] eqn:Htables; [|done].
    apply in_flat_map in Hin as (table & Ht & Hin). unfold Audit.tableFacts in Hin.
    destruct (Z.eqb_spec (Audit.observedMax db schema table) 0) as [|Hne]; [done|].
    destruct Hin as [<-|[]]. cbn. eauto 10.
  - intros (tables & Hs & Htables & Ht & Hne & Hauto).
    exists (Audit.Schema t). split; [done|]. unfold Audit.schemaFacts. rewrite Htables.
    apply in_flat_map. exists (Audit.Table t). split; [done|]. unfold Audit.tableFacts.
    destruct (Z.eqb_spec (Audit.observedMax db (Audit.Schema t) (Audit.Table t)) 0); [done|].
    left. destruct t; cbn in *. by subst.
Qed.

(** C3, counterexample: a negative observed maximum is not strictly positive,
    yet the table gets a fact. *)
Lemma negative_max_gets_fact :
  let db := oneTable (-5) None in
  Audit.observedMax db "db" "t" = -5
  ∧ ¬ (0 < Audit.observedMax db "db" "t")
  ∧ (Audit.collectSchemas db ["db"] []).2 = [Audit.MkTableInfo "db" "t" (-4)].
Proof. vm_compute. repeat split; congruence. Qed.

(** C3, amended: a fact is produced for a table exactly when the table is
    enumerated in a listed schema and the observed maximum row id is not zero
    (a negative maximum gets a fact too); its value is the [int64] successor
    of the maximum.  When the observed maximum is zero no fact carries the
    name of the table, and the execution loop sends one statement per fact
    and nothing else. *)
Theorem fact_iff_observed_max_nonzero {lib : GoStrings} (db : DB) (schemas : list string) :
  (∀ t, In t (Audit.collectSchemas db schemas []).2 ↔
        ∃ tables,
          In (Audit.Schema t) schemas
          ∧ (getTablesInSchema db (Audit.Schema t)).2 = Ok tables
          ∧ In (Audit.Table t) tables
          ∧ Audit.observedMax db (Audit.Schema t) (Audit.Table t) ≠ 0
          ∧ Audit.AutoInc t
            = add64 (Audit.observedMax db (Audit.Schema t) (Audit.Table t)) 1)
  ∧ (∀ schema table autoInc,
        Audit.observedMax db schema table = 0 →
        ¬ In (Audit.MkTableInfo schema table autoInc) (Audit.collectSchemas db schemas []).2)
  ∧ (∀ m, statementsSent (Audit.execute m db (Audit.collectSchemas db schemas []).2)
          = map (Audit.actionQuery m) (Audit.collectSchemas db schemas []).2).
Proof.
  split; [|split].
  - intros t. apply collected_fact_iff.
  - intros schema table autoInc Hz Hin.
    apply collected_fact_iff in Hin as (tables & _ & _ & _ & Hne & _). done.
  - intros m. apply execute_statements.
Qed.

Lemma fact_iff_observed_max_nonzero_witness :
  Audit.observedMax (oneTable 0 None) "db" "t" = 0
  ∧ ¬ In (Audit.MkTableInfo "db" "t" 1)
         (Audit.collectSchemas (oneTable 0 None) ["db"] []).2.
Proof.
  split; [reflexivity|].
  apply (proj1 (proj2 (fact_iff_observed_max_nonzero (oneTable 0 None) ["db"]))).
  reflexivity.
Defined.

(** ** Skipping a table during the lookup of the maximum row id *)

Section Lookup.
Import Audit.
Variables (db : DB) (schema table : string).

(** Unknown column (error 1054): skipped, nothing logged, whatever value
    the scan left behind. *)
Lemma unknown_column_is_silent maxID msg :
  QueryRowScan db (maxRowIDQuery schema table) = (maxID, Some (MySQLError 1054 msg)) →
  tableEvents db schema table = [SqlQueryRow (maxRowIDQuery schema table)]
  ∧ tableFacts db schema table = [].
Proof.
  intros H. unfold tableEvents, tableFacts, observedMax, getMaxRowID. by rewrite H.
Qed.

(** A zero (an empty table: [coalesce] turns the NULL into zero) without an
    error: skipped, nothing logged. *)
Lemma zero_is_silent :
  QueryRowScan db (maxRowIDQuery schema table) = (0, None) →
  tableEvents db schema table = [SqlQueryRow (maxRowIDQuery schema table)]
  ∧ tableFacts db schema table = [].
Proof.
  intros H. unfold tableEvents, tableFacts, observedMax, getMaxRowID. by rewrite H.
Qed.

(** Any other error that leaves the destination at zero: skipped, with a
    warning that names the table. *)
Lemma other_error_with_zero_is_logged err :
  QueryRowScan db (maxRowIDQuery schema table) = (0, Some err) →
  unknownColumnError_Is (Some err) = false →
  tableEvents db schema table
  = [SqlQueryRow (maxRowIDQuery schema table); Log (LogSkipTable schema table err)]
  ∧ tableFacts db schema table = [].
Proof.
  intros H Hno. unfold tableEvents, tableFacts, observedMax, getMaxRowID.
  by rewrite H, Hno.
Qed.

(** Any other error that comes with a value other than zero: the loop does
    not look at the error. *)
Lemma other_error_with_value_is_ignored maxID err :
  QueryRowScan db (maxRowIDQuery schema table) = (maxID, Some err) →
  unknownColumnError_Is (Some err) = false →
  maxID ≠ 0 →
  tableEvents db schema table = [SqlQueryRow (maxRowIDQuery schema table)]
  ∧ tableFacts db schema table = [MkTableInfo schema table (add64 maxID 1)].
Proof.
  intros H Hno Hne. unfold tableEvents, tableFacts, observedMax, getMaxRowID.
  rewrite H, Hno. cbn. destruct (Z.eqb_spec maxID 0); done.
Qed.
End Lookup.

(** C4, at the input where the code departs from it: the lookup stores the
    value 7 and returns an error that is not the unknown-column error (the
    row was read, closing the row set failed).  The collection loop tests
    [maxID == 0] before it looks at the error, so nothing is logged and the
    table gets a fact; the map-based variant records the table as well. *)
Theorem lookup_error_with_value_yields_fact :
  let db := oneTable 7 (Some closeError) in
  (getMaxRowID db "db" "t").2 = (7, Some closeError)
  ∧ unknownColumnError_Is (Some closeError) = false
  ∧ Audit.collectSchemas db ["db"] []
    = ([Log (LogProcessingSchema "db");
        SqlQuery "SHOW TABLES FROM `db`";
        SqlQueryRow "SELECT coalesce(max(_tidb_rowid), 0) FROM `db`.`t`"],
       [Audit.MkTableInfo "db" "t" 8])
  ∧ (ForceRebase.collectSchemas db ["db"] ∅).1
    = [Log (LogProcessingSchema "db");
       SqlQuery "SHOW TABLES FROM `db`";
       SqlQueryRow "SELECT coalesce(max(_tidb_rowid), 0) FROM `db`.`t`"]
  ∧ (ForceRebase.collectSchemas db ["db"] ∅).2 !! ForceRebase.MkTableIdentifier "db" "t"
    = Some 7.
Proof. repeat split; vm_compute; reflexivity. Qed.

(** ** An invalid mode *)

(** C8: when the mode flag is neither [compare] nor [rebase] (the empty
    default of a missing flag included) the run consists of the usage message
    and the fatal log line; nothing reaches the database driver, not even
    [sql.Open]. *)
Theorem invalid_mode_is_fatal_before_connecting {lib : GoStrings} (f : Audit.flags) (db : DB) :
  Audit.modeString f ≠ "compare" →
  Audit.modeString f ≠ "rebase" →
  Audit.main f db = [Usage; Fatal LogInvalidMode]
  ∧ Forall (fun e => touchesDatabase e = false) (Audit.main f db)
  ∧ statementsSent (Audit.main f db) = [].
Proof.
  intros Hc Hr. unfold Audit.main, Audit.parseMode.
  destruct (String.eqb_spec (Audit.modeString f) "compare") as [|_]; [done|].
  destruct (String.eqb_spec (Audit.modeString f) "rebase") as [|_]; [done|].
  repeat split. repeat constructor.
Qed.

Lemma invalid_mode_is_fatal_before_connecting_witness :
  let f := Audit.MkFlags "127.0.0.1" "4000" "root" "" "" "db" in
  Audit.main f (oneTable 7 None) = [Usage; Fatal LogInvalidMode]
  ∧ Forall (fun e => touchesDatabase e = false) (Audit.main f (oneTable 7 None))
  ∧ statementsSent (Audit.main f (oneTable 7 None)) = [].
Proof.
  apply (invalid_mode_is_fatal_before_connecting
           (Audit.MkFlags "127.0.0.1" "4000" "root" "" "" "db") (oneTable 7 None));
    cbn; discriminate.
Defined.

(** ** Compare mode *)

Section Compare.
Import Audit.
Context {lib : GoStrings}.

Lemma statusOf_ok next autoInc : statusOf next autoInc = "ok" ↔ autoInc <= next.
Proof.
  unfold statusOf. destruct (Z.geb_spec next autoInc); split; intros; try done; lia.
Qed.

Lemma statusOf_error next autoInc : statusOf next autoInc = "ERROR" ↔ next < autoInc.
Proof.
  unfold statusOf. destruct (Z.geb_spec next autoInc); split; intros; try done; lia.
Qed.

Lemma compareRows_closed rows t cols i j data views :
  Forall2 (scansTo cols i j) data views →
  compareRows rows t (makeScanArgs (List.length cols) i j) i j data
  = (map (reportLine t) (List.filter isRowID views), None).
Proof.
  induction 1 as [|row view data views (vs & Hscan & Hs & Hn) _ IH]; [done|].
  cbn [compareRows List.filter]. unfold Scan. rewrite Hscan, Hs, Hn.
  unfold isRowID at 1. destruct (String.eqb view.1 "_TIDB_ROWID"); cbn [negb].
  - rewrite IH. reflexivity.
  - exact IH.
Qed.

Lemma compareAutoIncrement_closed db t rows cols i j views :
  Query db (nextRowIDQuery t) = Ok rows →
  Columns rows = Ok cols →
  findColumns cols 0 (-1) (-1) = (i, j) →
  i ≠ -1 → j ≠ -1 →
  Forall2 (scansTo cols i j) (Data rows) views →
  Err rows = None →
  compareAutoIncrement db t
  = (SqlQuery (nextRowIDQuery t) :: map (reportLine t) (List.filter isRowID views), None).
Proof.
  intros Hq Hc Hf Hi Hj Hrows Herr. unfold compareAutoIncrement.
  rewrite Hq, Hc, Hf.
  destruct (Z.eqb_spec i (-1)); [done|]. destruct (Z.eqb_spec j (-1)); [done|].
  cbn [orb]. rewrite (compareRows_closed rows t cols i j _ views Hrows), Herr. reflexivity.
Qed.

Lemma stdoutLines_reportLines t views :
  stdoutLines (map (reportLine t) views)
  = map (fun v => csvLine (Schema t) (Table t) (AutoInc t) v.2 (statusOf v.2 (AutoInc t)))
        views.
Proof. induction views as [|v views IH]; [done|]. cbn. by rewrite IH. Qed.

(** A column that no name matches keeps its index at the value it had. *)
Lemma findColumns_no_id_type cols k i j :
  (∀ c, In c cols → ToUpper c ≠ "ID_TYPE") → (findColumns cols k i j).1 = i.
Proof.
  revert k i j. induction cols as [|c cols IH]; intros k i j Hno; [done|].
  cbn [findColumns].
  destruct (String.eqb_spec (ToUpper c) "ID_TYPE") as [Heq|_].
  - exfalso. by apply (Hno c); [left|].
  - destruct (String.eqb (ToUpper c) "NEXT_GLOBAL_ROW_ID");
      apply IH; intros c' Hc'; apply Hno; by right.
Qed.

Lemma findColumns_no_next_id cols k i j :
  (∀ c, In c cols → ToUpper c ≠ "NEXT_GLOBAL_ROW_ID") → (findColumns cols k i j).2 = j.
Proof.
  revert k i j. induction cols as [|c cols IH]; intros k i j Hno; [done|].
  cbn [findColumns].
  destruct (String.eqb (ToUpper c) "ID_TYPE").
  - apply IH; intros c' Hc'; apply Hno; by right.
  - destruct (String.eqb_spec (ToUpper c) "NEXT_GLOBAL_ROW_ID") as [Heq|_].
    + exfalso. by apply (Hno c); [left|].
    + apply IH; intros c' Hc'; apply Hno; by right.
Qed.
End Compare.

(** C2, counterexample: on the example of the specification (an unrelated
    row with 999, the row of the implicit row id with 50, expected value 50)
    the next global row id is not below the expected value, and the status
    printed is the lower-case [ok], not [OK]. *)
Lemma compare_status_is_lower_case :
  let t := Audit.MkTableInfo "db" "t" 50 in
  Audit.AutoInc t <= 50
  ∧ stdoutLines (Audit.compareAutoIncrement exampleServer t).1
    = [Audit.csvLine "db" "t" 50 50 "ok"]
  ∧ ¬ In (Audit.csvLine "db" "t" 50 50 "OK")
         (stdoutLines (Audit.compareAutoIncrement exampleServer t).1).
Proof.
  split; [|split]; [vm_compute; congruence | reflexivity |].
  vm_compute. intros [H|[]]. discriminate H.
Qed.

(** C2, amended: when the metadata query succeeds, both columns are found,
    every row scans and the iteration ends without an error, the comparison
    returns no error and prints one record for every row whose scheme name is
    exactly [_TIDB_ROWID], in order, and nothing for any other row; so a
    record is printed exactly when such a row exists.  The status of a record
    is the lower-case [ok] exactly when the next global row id of its row is
    at least the expected value and [ERROR] exactly when it is below. *)
Theorem compare_reports_rowid_rows {lib : GoStrings} (db : DB) (t : Audit.tableInfo) (rows : Rows)
    (cols : list string) (i j : Z) (views : list (string * Z)) :
  Query db (Audit.nextRowIDQuery t) = Ok rows →
  Columns rows = Ok cols →
  Audit.findColumns cols 0 (-1) (-1) = (i, j) →
  i ≠ -1 → j ≠ -1 →
  Forall2 (Audit.scansTo cols i j) (Data rows) views →
  Err rows = None →
  (Audit.compareAutoIncrement db t).2 = None
  ∧ stdoutLines (Audit.compareAutoIncrement db t).1
    = map (fun v => Audit.csvLine (Audit.Schema t) (Audit.Table t) (Audit.AutoInc t) v.2
                      (Audit.statusOf v.2 (Audit.AutoInc t)))
          (List.filter (fun v => String.eqb v.1 "_TIDB_ROWID") views)
  ∧ (stdoutLines (Audit.compareAutoIncrement db t).1 ≠ []
     ↔ ∃ v, In v views ∧ v.1 = "_TIDB_ROWID")
  ∧ (∀ next, Audit.statusOf next (Audit.AutoInc t) = "ok" ↔ Audit.AutoInc t <= next)
  ∧ (∀ next, Audit.statusOf next (Audit.AutoInc t) = "ERROR" ↔ next < Audit.AutoInc t).
Proof.
  intros Hq Hc Hf Hi Hj Hrows Herr.
  rewrite (compareAutoIncrement_closed db t rows cols i j views) by done.
  cbn [fst snd stdoutLines]. rewrite stdoutLines_reportLines.
  split; [done|]. split; [done|]. split; [|split].
  - fold Audit.isRowID. split.
    + intros Hne. destruct (List.filter Audit.isRowID views) as [|v l] eqn:Hfl; [done|].
      assert (In v (List.filter Audit.isRowID views)) as Hin by (rewrite Hfl; by left).
      apply filter_In in Hin as [Hin Hv]. exists v. split; [done|].
      by apply String.eqb_eq.
    + intros (v & Hin & Hv) Hnil.
      assert (In v (List.filter Audit.isRowID views)) as Hin'.
      { apply filter_In. split; [done|]. by apply String.eqb_eq. }
      destruct (List.filter Audit.isRowID views); [done|discriminate].
  - intros next. apply statusOf_ok.
  - intros next. apply statusOf_error.
Qed.

Lemma compare_reports_rowid_rows_witness :
  stdoutLines (Audit.compareAutoIncrement exampleServer (Audit.MkTableInfo "db" "t" 51)).1
  = [Audit.csvLine "db" "t" 51 50 "ERROR"].
Proof.
  refine (proj1 (proj2 (compare_reports_rowid_rows exampleServer
                          (Audit.MkTableInfo "db" "t" 51) exampleNextRowID
                          ["DB_NAME"; "TABLE_NAME"; "COLUMN_NAME"; "NEXT_GLOBAL_ROW_ID"; "ID_TYPE"]
                          4 3 [("OTHER", 999); ("_TIDB_ROWID", 50)] _ _ _ _ _ _ _)));
    try reflexivity; try lia.
  repeat (constructor; [eexists; split; [reflexivity|split; reflexivity]|]).
  constructor.
Defined.

(** C6: when the columns of the metadata answer lack [ID_TYPE] or lack
    [NEXT_GLOBAL_ROW_ID], the names being compared after [strings.ToUpper] as
    the code does (whatever that function maps a name to), the comparison of
    that table returns an error after sending its query and prints no record;
    the execution loop logs the error with the name of the table and goes on
    with the rest of the facts. *)
Theorem missing_columns_fail_the_table {lib : GoStrings} (db : DB) (t : Audit.tableInfo) (rows : Rows)
    (cols : list string) (rest : list Audit.tableInfo) :
  Query db (Audit.nextRowIDQuery t) = Ok rows →
  Columns rows = Ok cols →
  (∀ c, In c cols → ToUpper c ≠ "ID_TYPE")
  ∨ (∀ c, In c cols → ToUpper c ≠ "NEXT_GLOBAL_ROW_ID") →
  ∃ err,
    Audit.compareAutoIncrement db t = ([SqlQuery (Audit.nextRowIDQuery t)], Some err)
    ∧ stdoutLines (Audit.compareAutoIncrement db t).1 = []
    ∧ Audit.execute Audit.modeCompare db (t :: rest)
      = [SqlQuery (Audit.nextRowIDQuery t);
         Log (LogActionError (Audit.Schema t) (Audit.Table t) err)]
        ++ Audit.execute Audit.modeCompare db rest.
Proof.
  intros Hq Hc Hmissing.
  assert (∃ err, Audit.compareAutoIncrement db t
                 = ([SqlQuery (Audit.nextRowIDQuery t)], Some err)) as [err Herr].
  { unfold Audit.compareAutoIncrement. rewrite Hq, Hc.
    destruct (Audit.findColumns cols 0 (-1) (-1)) as [i j] eqn:Hf.
    assert (i = -1 ∨ j = -1) as Hij.
    { destruct Hmissing as [Hno|Hno].
      - left. apply (findColumns_no_id_type cols 0 (-1) (-1)) in Hno. by rewrite Hf in Hno.
      - right. apply (findColumns_no_next_id cols 0 (-1) (-1)) in Hno. by rewrite Hf in Hno. }
    destruct (Z.eqb_spec i (-1)); [eauto|].
    destruct (Z.eqb_spec j (-1)); [eauto|]. lia. }
  exists err. split; [done|]. split; [by rewrite Herr|].
  cbn [Audit.execute]. unfold Audit.executeOne. rewrite Herr. reflexivity.
Qed.

Lemma missing_columns_fail_the_table_witness :
  ∃ err,
    Audit.compareAutoIncrement serverWithoutIdType (Audit.MkTableInfo "db" "t" 50)
    = ([SqlQuery "SHOW TABLE `db`.`t` NEXT_ROW_ID"], Some err)
    ∧ stdoutLines
        (Audit.compareAutoIncrement serverWithoutIdType (Audit.MkTableInfo "db" "t" 50)).1 = []
    ∧ Audit.execute Audit.modeCompare serverWithoutIdType
        [Audit.MkTableInfo "db" "t" 50; Audit.MkTableInfo "db" "u" 7]
      = [SqlQuery "SHOW TABLE `db`.`t` NEXT_ROW_ID"; Log (LogActionError "db" "t" err)]
        ++ Audit.execute Audit.modeCompare serverWithoutIdType [Audit.MkTableInfo "db" "u" 7].
Proof.
  refine (missing_columns_fail_the_table serverWithoutIdType (Audit.MkTableInfo "db" "t" 50)
            (MkRows (Ok ["DB_NAME"; "NEXT_GLOBAL_ROW_ID"])
                    [[Cell (Some "db") None; Cell (Some "50") (Some 50)]] None
                    exampleScanError)
            ["DB_NAME"; "NEXT_GLOBAL_ROW_ID"] [Audit.MkTableInfo "db" "u" 7] _ _ _);
    try reflexivity.
  left. intros c [<-|[<-|[]]]; vm_compute; discriminate.
Defined.

(** ** Quoting of identifiers *)

Lemma append_cancel_prefix (p a b : string) : p +:+ a = p +:+ b → a = b.
Proof. induction p as [|c p IH]; cbn; [done|]. intros H. injection H as H. auto. Qed.

(** A text is cut at its first backtick in one way only. *)
Lemma cut_at_first_backtick (s1 s2 r1 r2 : string) :
  countBackticks s1 = 0%nat → countBackticks s2 = 0%nat →
  s1 +:+ String "`" r1 = s2 +:+ String "`" r2 →
  s1 = s2 ∧ r1 = r2.
Proof.
  revert s2. induction s1 as [|c s1 IH]; intros [|c' s2] H1 H2 Heq; cbn in *.
  - by injection Heq as ->.
  - injection Heq as <- _. cbn in H2. discriminate H2.
  - injection Heq as -> _. cbn in H1. discriminate H1.
  - injection Heq as -> Heq.
    destruct (Ascii.eqb c' "`"); [discriminate H1|].
    destruct (IH s2 H1 H2 Heq) as [-> ->]. done.
Qed.

(** Where no name holds a backtick, the text of the rebase statement fixes
    the schema and the table it names. *)
Lemma rebaseQuery_names_without_backticks (t1 t2 : Audit.tableInfo) :
  countBackticks (Audit.Schema t1) = 0%nat → countBackticks (Audit.Table t1) = 0%nat →
  countBackticks (Audit.Schema t2) = 0%nat → countBackticks (Audit.Table t2) = 0%nat →
  Audit.rebaseQuery t1 = Audit.rebaseQuery t2 →
  Audit.Schema t1 = Audit.Schema t2 ∧ Audit.Table t1 = Audit.Table t2.
Proof.
  intros Hs1 Ht1 Hs2 Ht2 Heq. unfold Audit.rebaseQuery in Heq.
  apply append_cancel_prefix in Heq. cbn in Heq.
  apply cut_at_first_backtick in Heq as [Hs Heq]; [|done..].
  injection Heq as Heq. apply cut_at_first_backtick in Heq as [Ht _]; done.
Qed.

(** C5, at inputs where the code departs from it: the names are put between
    backticks without doubling the backticks they hold.  Two different
    tables then get the same ALTER TABLE, SHOW TABLE NEXT_ROW_ID and
    SELECT max statements, so a statement does not name its table alone; and
    a schema name with one backtick gives a SHOW TABLES statement with an
    odd number of backticks, which is not a balanced quoting. *)
Theorem backtick_in_name_retargets_statement :
  let t1 := Audit.MkTableInfo "a`.`b" "c" 6 in
  let t2 := Audit.MkTableInfo "a" "b`.`c" 6 in
  (Audit.Schema t1, Audit.Table t1) ≠ (Audit.Schema t2, Audit.Table t2)
  ∧ Audit.rebaseQuery t1 = Audit.rebaseQuery t2
  ∧ Audit.rebaseQuery t1 = "ALTER TABLE `a`.`b`.`c` AUTO_INCREMENT = 6"
  ∧ Audit.nextRowIDQuery t1 = Audit.nextRowIDQuery t2
  ∧ maxRowIDQuery "a`.`b" "c" = maxRowIDQuery "a" "b`.`c"
  ∧ ForceRebase.alterQuery (ForceRebase.MkTableIdentifier "a`.`b" "c") 6
    = ForceRebase.alterQuery (ForceRebase.MkTableIdentifier "a" "b`.`c") 6
  ∧ showTablesQuery "a`b" = "SHOW TABLES FROM `a`b`"
  ∧ countBackticks (showTablesQuery "a`b") = 3%nat.
Proof. cbn. repeat split; try reflexivity. discriminate. Qed.

(** ** Isolation of failures *)

Lemma append_cancel_last (c : ascii) (a b : string) :
  a +:+ String c EmptyString = b +:+ String c EmptyString → a = b.
Proof.
  revert b. induction a as [|x a IH]; intros [|y b] H; cbn in H.
  - done.
  - injection H as _ H. destruct b; discriminate H.
  - injection H as _ H. destruct a; discriminate H.
  - injection H as -> H. by rewrite (IH b H).
Qed.

Lemma showTablesQuery_inj (a b : string) : showTablesQuery a = showTablesQuery b → a = b.
Proof.
  unfold showTablesQuery. intros H. apply append_cancel_prefix in H.
  by apply append_cancel_last in H.
Qed.

Section SchemaIsolation.
Import Audit.
Variables (db db' : DB) (x : string).
Hypothesis Hsame : sameAnswersExcept (showTablesQuery x) db db'.

Lemma getMaxRowID_same schema table :
  getMaxRowID db schema table = getMaxRowID db' schema table.
Proof.
  destruct Hsame as (_ & _ & Hscan & _). unfold getMaxRowID. by rewrite Hscan.
Qed.

Lemma getTablesInSchema_same y : y ≠ x → getTablesInSchema db y = getTablesInSchema db' y.
Proof.
  intros Hne. destruct Hsame as (_ & Hquery & _ & _). unfold getTablesInSchema.
  rewrite Hquery; [done|]. intros Heq. by apply showTablesQuery_inj in Heq.
Qed.

Lemma tableEvents_same schema table :
  tableEvents db schema table = tableEvents db' schema table.
Proof. unfold tableEvents. by rewrite getMaxRowID_same. Qed.

Lemma tableFacts_same schema table :
  tableFacts db schema table = tableFacts db' schema table.
Proof. unfold tableFacts, observedMax. by rewrite getMaxRowID_same. Qed.

Lemma schemaEvents_same y : y ≠ x → schemaEvents db y = schemaEvents db' y.
Proof.
  intros Hne. unfold schemaEvents. rewrite (getTablesInSchema_same y Hne).
  destruct (getTablesInSchema db' y).2; [|done].
  do 2 f_equal. apply flat_map_ext. intros table. apply tableEvents_same.
Qed.

Lemma schemaFacts_same y : y ≠ x → schemaFacts db y = schemaFacts db' y.
Proof.
  intros Hne. unfold schemaFacts. rewrite (getTablesInSchema_same y Hne).
  destruct (getTablesInSchema db' y).2; [|done].
  apply flat_map_ext. intros table. apply tableFacts_same.
Qed.

(** The other schemas are processed alike on the two servers. *)
Lemma collectSchemas_same schemas tableInfos :
  ¬ In x schemas →
  collectSchemas db schemas tableInfos = collectSchemas db' schemas tableInfos.
Proof.
  intros Hx. rewrite !collectSchemas_closed. f_equal; [|f_equal].
  - induction schemas as [|y l IH]; [done|]. cbn [flat_map].
    rewrite schemaEvents_same, IH; [done|..]; intros H; apply Hx; [by right|by left].
  - induction schemas as [|y l IH]; [done|]. cbn [flat_map].
    rewrite schemaFacts_same, IH; [done|..]; intros H; apply Hx; [by right|by left].
Qed.
End SchemaIsolation.

Section ActionIsolation.
Import Audit.
Context {lib : GoStrings}.
Variables (db db' : DB) (q0 : string).
Hypothesis Hsame : sameAnswersExcept q0 db db'.

Lemma executeOne_same m t : actionQuery m t ≠ q0 → executeOne m db t = executeOne m db' t.
Proof.
  intros Hne. destruct Hsame as (_ & Hquery & _ & Hexec). unfold executeOne. destruct m.
  - unfold compareAutoIncrement. by rewrite Hquery.
  - unfold rebaseAutoIncrement. by rewrite Hexec.
Qed.

Lemma execute_same m tableInfos :
  (∀ t, In t tableInfos → actionQuery m t ≠ q0) →
  execute m db tableInfos = execute m db' tableInfos.
Proof.
  induction tableInfos as [|t l IH]; intros Hne; [done|]. cbn [execute].
  rewrite executeOne_same, IH; [done| |].
  - intros t' Ht'. apply Hne. by right.
  - apply Hne. by left.
Qed.
End ActionIsolation.

Section MapCollection.
Import ForceRebase.
Variable db : DB.

Lemma collectSchemas_app l1 l2 maxRowIDs :
  collectSchemas db (l1 ++ l2) maxRowIDs
  = ((collectSchemas db l1 maxRowIDs).1
       ++ (collectSchemas db l2 (collectSchemas db l1 maxRowIDs).2).1,
     (collectSchemas db l2 (collectSchemas db l1 maxRowIDs).2).2).
Proof.
  revert maxRowIDs. induction l1 as [|schema l1 IH]; intros maxRowIDs.
  - cbn. by destruct (collectSchemas db l2 maxRowIDs).
  - cbn [app collectSchemas].
    destruct (getTablesInSchema db schema) as [ev [tables|err]].
    + destruct (collectTables db schema tables maxRowIDs) as [evt m1].
      rewrite IH. destruct (collectSchemas db l1 m1) as [ev1 m2]. cbn [fst snd].
      by rewrite <- app_comm_cons, <- !app_assoc.
    + rewrite IH. destruct (collectSchemas db l1 maxRowIDs) as [ev1 m2]. cbn [fst snd].
      by rewrite <- app_comm_cons, <- !app_assoc.
Qed.

Lemma collectSchemas_failed x err l maxRowIDs :
  (getTablesInSchema db x).2 = Failed err →
  (collectSchemas db (x :: l) maxRowIDs).2 = (collectSchemas db l maxRowIDs).2.
Proof.
  intros H. cbn [collectSchemas].
  destruct (getTablesInSchema db x) as [ev r]. cbn in H. subst r.
  by destruct (collectSchemas db l maxRowIDs).
Qed.
End MapCollection.

Lemma getTablesInSchema_events (db : DB) (schema : string) :
  (getTablesInSchema db schema).1 = [SqlQuery (showTablesQuery schema)].
Proof. reflexivity. Qed.

(** C7: let the enumeration of schema [x] fail on the server [db], and let
    [db'] answer like [db] except to the enumeration of [x].  On [db] the
    failing schema leaves its three events (processing, query, skip) and no
    fact, and the schemas before and after it give the events and facts they
    give without it.  On [db'] the same schemas before and after give the
    same events and facts again, around whatever [x] gives there.  The map of
    the map-based variant is the one of the run without [x].  In the
    execution loop the events of every fact whose statement differs from the
    statement of a fact [t] are the same whatever the server answers for
    [t]. *)
Theorem failures_are_isolated {lib : GoStrings} (db db' : DB) (x : string) (err : error)
    (before after : list string) :
  (getTablesInSchema db x).2 = Failed err →
  sameAnswersExcept (showTablesQuery x) db db' →
  ¬ In x before → ¬ In x after →
  Audit.collectSchemas db (before ++ x :: after) []
  = ((Audit.collectSchemas db before []).1
       ++ [Log (LogProcessingSchema x); SqlQuery (showTablesQuery x);
           Log (LogSkipSchema x err)]
       ++ (Audit.collectSchemas db after []).1,
     (Audit.collectSchemas db before []).2 ++ (Audit.collectSchemas db after []).2)
  ∧ (Audit.collectSchemas db (before ++ after) []).2
    = (Audit.collectSchemas db before []).2 ++ (Audit.collectSchemas db after []).2
  ∧ Audit.collectSchemas db' (before ++ x :: after) []
    = ((Audit.collectSchemas db before []).1 ++ Audit.schemaEvents db' x
         ++ (Audit.collectSchemas db after []).1,
       (Audit.collectSchemas db before []).2 ++ Audit.schemaFacts db' x
         ++ (Audit.collectSchemas db after []).2)
  ∧ (ForceRebase.collectSchemas db (before ++ x :: after) ∅).2
    = (ForceRebase.collectSchemas db (before ++ after) ∅).2
  ∧ (∀ m t db2 l1 l2,
        sameAnswersExcept (Audit.actionQuery m t) db db2 →
        (∀ t', In t' (l1 ++ l2) → Audit.actionQuery m t' ≠ Audit.actionQuery m t) →
        Audit.execute m db (l1 ++ t :: l2)
        = Audit.execute m db2 l1 ++ Audit.executeOne m db t ++ Audit.execute m db2 l2).
Proof.
  intros Hfail Hsame Hb Ha.
  assert (Audit.schemaEvents db x
          = [Log (LogProcessingSchema x); SqlQuery (showTablesQuery x);
             Log (LogSkipSchema x err)]) as Hev.
  { unfold Audit.schemaEvents. by rewrite Hfail, getTablesInSchema_events. }
  assert (Audit.schemaFacts db x = []) as Hfacts.
  { unfold Audit.schemaFacts. by rewrite Hfail. }
  split; [|split; [|split; [|split]]].
  - rewrite !collectSchemas_closed, !flat_map_app. cbn [flat_map fst snd app].
    by rewrite Hev, Hfacts.
  - rewrite !collectSchemas_closed. cbn [snd app]. apply flat_map_app.
  - rewrite (collectSchemas_same db db' x Hsame before [] Hb).
    rewrite (collectSchemas_same db db' x Hsame after [] Ha).
    rewrite !collectSchemas_closed, !flat_map_app. cbn [flat_map fst snd app]. done.
  - rewrite !collectSchemas_app. cbn [snd].
    by rewrite (collectSchemas_failed db x err).
  - intros m t db2 l1 l2 Hsame2 Hne.
    rewrite execute_app. cbn [Audit.execute].
    rewrite (execute_same db db2 _ Hsame2 m l1), (execute_same db db2 _ Hsame2 m l2); [done|..].
    + intros t' Ht'. apply Hne, in_or_app. by right.
    + intros t' Ht'. apply Hne, in_or_app. by left.
Qed.

Lemma failures_are_isolated_witness :
  (Audit.collectSchemas failingSchemaServer ["a"; "bad"; "b"] []).2
  = [Audit.MkTableInfo "a" "t" 8; Audit.MkTableInfo "b" "t" 8].
Proof.
  assert (sameAnswersExcept (showTablesQuery "bad") failingSchemaServer (oneTable 7 None))
    as Hsame.
  { repeat split; try reflexivity. intros q Hq. cbn.
    destruct (String.eqb_spec q "SHOW TABLES FROM `bad`"); [contradiction|reflexivity]. }
  assert (¬ In "bad" ["a"]) as Hb by (intros [H|[]]; discriminate H).
  assert (¬ In "bad" ["b"]) as Ha by (intros [H|[]]; discriminate H).
  exact (f_equal snd
           (proj1 (failures_are_isolated failingSchemaServer (oneTable 7 None) "bad"
                     (Errorf "querying tables for schema 'bad'"
                             (MySQLError 1049 "Unknown database 'bad'"))
                     ["a"] ["b"] eq_refl Hsame Hb Ha))).
Defined.

(** ** Dry run *)

Section DryRun.
Import ForceRebase.
Variable db : DB.

Lemma collectTables_no_exec schema tables maxRowIDs :
  execStatements (collectTables db schema tables maxRowIDs).1 = []
  ∧ loggedStatements (collectTables db schema tables maxRowIDs).1 = [].
Proof.
  revert maxRowIDs. induction tables as [|table rest IH]; intros maxRowIDs; [done|].
  cbn [collectTables]. pose proof (getMaxRowID_events db schema table) as Hev.
  destruct (getMaxRowID db schema table) as [ev [maxID err]]. cbn [fst] in Hev. subst ev.
  destruct (maxID =? 0).
  - specialize (IH maxRowIDs). destruct (collectTables db schema rest maxRowIDs) as [ev' m'].
    cbn [fst] in *. rewrite !execStatements_app, !loggedStatements_app.
    destruct IH as [-> ->]. by destruct err.
  - specialize (IH (<[MkTableIdentifier schema table := maxID]> maxRowIDs)).
    destruct (collectTables db schema rest _) as [ev' m'].
    cbn [fst] in *. rewrite !execStatements_app, !loggedStatements_app.
    by destruct IH as [-> ->].
Qed.

(** The collection phase executes no statement and logs none. *)
Lemma collectSchemas_no_exec schemas maxRowIDs :
  execStatements (collectSchemas db schemas maxRowIDs).1 = []
  ∧ loggedStatements (collectSchemas db schemas maxRowIDs).1 = [].
Proof.
  revert maxRowIDs. induction schemas as [|schema rest IH]; intros maxRowIDs; [done|].
  cbn [collectSchemas]. pose proof (getTablesInSchema_events db schema) as Hev.
  destruct (getTablesInSchema db schema) as [ev [tables|err]]; cbn [fst] in Hev; subst ev.
  - pose proof (collectTables_no_exec schema tables maxRowIDs) as Ht.
    destruct (collectTables db schema tables maxRowIDs) as [evt m1].
    specialize (IH m1). destruct (collectSchemas db rest m1) as [ev' m'].
    cbn [fst] in *. cbn [app execStatements loggedStatements].
    rewrite !execStatements_app, !loggedStatements_app.
    destruct IH as [-> ->], Ht as [-> ->]. done.
  - specialize (IH maxRowIDs). destruct (collectSchemas db rest maxRowIDs) as [ev' m'].
    cbn [fst] in *. cbn [app execStatements loggedStatements]. done.
Qed.

Lemma update_dry_executes_nothing order : execStatements (update true db order) = [].
Proof.
  induction order as [|[tableID maxID] rest IH]; [done|].
  cbn [update]. rewrite execStatements_app, IH. reflexivity.
Qed.

Lemma update_logs_statements dry order :
  loggedStatements (update dry db order)
  = map (fun entry => alterQuery entry.1 (add64 entry.2 1)) order.
Proof.
  induction order as [|[tableID maxID] rest IH]; [done|].
  cbn [update map]. rewrite loggedStatements_app, IH. f_equal.
  unfold updateOne. cbn. destruct dry; cbn; [done|].
  by destruct (Exec db _).
Qed.

Lemma update_executes_statements order :
  execStatements (update false db order)
  = map (fun entry => alterQuery entry.1 (add64 entry.2 1)) order.
Proof.
  induction order as [|[tableID maxID] rest IH]; [done|].
  cbn [update map]. rewrite execStatements_app, IH. f_equal.
  unfold updateOne. cbn. by destruct (Exec db _).
Qed.

Lemma main_logged_statements f order :
  Open db (dataSourceName f) = None →
  loggedStatements (main f db order)
  = map (fun entry => alterQuery entry.1 (add64 entry.2 1)) order.
Proof.
  intros Hopen. unfold main. rewrite Hopen. cbn [app loggedStatements].
  rewrite loggedStatements_app, (proj2 (collectSchemas_no_exec _ _)).
  cbn [app loggedStatements].
  rewrite loggedStatements_app, update_logs_statements. cbn.
  by rewrite app_nil_r.
Qed.
End DryRun.

(** C9: in a run of the variant with the dry-run flag set, no statement is
    passed to [db.Exec].  Once the connection is open, the ALTER TABLE
    statement of every entry of the collected map is logged, and the logged
    statements are those of the entries, each once; for every order of the
    entries they are, one by one, the statements that the run without the
    flag passes to [db.Exec]. *)
Theorem dry_run_executes_nothing (f : ForceRebase.flags) (db : DB) (trace : list event) :
  ForceRebase.dryRun f = true →
  ForceRebase.runs f db trace →
  execStatements trace = []
  ∧ (Open db (ForceRebase.dataSourceName f) = None →
     (∀ tableID maxID,
         ForceRebase.collected f db !! tableID = Some maxID →
         In (ForceRebase.alterQuery tableID (add64 maxID 1)) (loggedStatements trace))
     ∧ loggedStatements trace
       ≡ₚ map (fun entry => ForceRebase.alterQuery entry.1 (add64 entry.2 1))
              (map_to_list (ForceRebase.collected f db)))
  ∧ (∀ order,
        loggedStatements (ForceRebase.update true db order)
        = execStatements (ForceRebase.update false db order)).
Proof.
  intros Hdry (order & Hperm & ->). unfold ForceRebase.rangeOrder in Hperm.
  pose proof (collectSchemas_no_exec db (Split (ForceRebase.schemaList f)) ∅) as [Hce _].
  split; [|split].
  - unfold ForceRebase.main. rewrite Hdry.
    destruct (Open db (ForceRebase.dataSourceName f)); [done|].
    cbn [app execStatements]. rewrite execStatements_app, Hce.
    cbn [app execStatements]. rewrite execStatements_app, update_dry_executes_nothing.
    reflexivity.
  - intros Hopen. rewrite (main_logged_statements db f order Hopen). split.
    + intros tableID maxID Hlookup. apply in_map_iff. exists (tableID, maxID).
      split; [done|]. apply list_elem_of_In. rewrite Hperm.
      by apply elem_of_map_to_list.
    + by apply Permutation_map.
  - intros order'. by rewrite update_logs_statements, update_executes_statements.
Qed.

Lemma dry_run_executes_nothing_witness :
  execStatements
    (ForceRebase.main (rebaseFlags true "db") twoTables
       (map_to_list (ForceRebase.collected (rebaseFlags true "db") twoTables)))
  = [].
Proof.
  refine (proj1 (dry_run_executes_nothing (rebaseFlags true "db") twoTables _ eq_refl _)).
  exists (map_to_list (ForceRebase.collected (rebaseFlags true "db") twoTables)).
  split; [apply Permutation_refl | exact eq_refl].
Defined.

(** ** Order of the actions *)

Section ActionOrder.
Import Audit.
Variable db : DB.

Lemma tableEvents_send_nothing schema tables :
  statementsSent (flat_map (tableEvents db schema) tables) = [].
Proof.
  induction tables as [|table rest IH]; [done|].
  cbn [flat_map]. rewrite statementsSent_app, IH, app_nil_r.
  unfold tableEvents. pose proof (getMaxRowID_events db schema table) as Hev.
  destruct (getMaxRowID db schema table) as [ev [maxID err]]. cbn [fst] in Hev. subst ev.
  destruct (maxID =? 0); [|done]. by destruct err.
Qed.

(** The collection phase sends one SHOW TABLES per listed schema, in the
    order of the list. *)
Lemma collectSchemas_statements schemas tableInfos :
  statementsSent (collectSchemas db schemas tableInfos).1 = map showTablesQuery schemas.
Proof.
  rewrite collectSchemas_closed. cbn [fst].
  induction schemas as [|schema rest IH]; [done|].
  cbn [flat_map map]. rewrite statementsSent_app, IH. f_equal.
  unfold schemaEvents. rewrite getTablesInSchema_events. cbn [app statementsSent].
  destruct (getTablesInSchema db schema).2; [|done].
  by rewrite tableEvents_send_nothing.
Qed.
End ActionOrder.

Lemma twoTables_collected :
  ForceRebase.collected (rebaseFlags false "db") twoTables
  = <[ForceRebase.MkTableIdentifier "db" "b" := 1]>
      (<[ForceRebase.MkTableIdentifier "db" "a" := 1]> ∅).
Proof. reflexivity. Qed.

Lemma twoTables_entries :
  map_to_list (ForceRebase.collected (rebaseFlags false "db") twoTables)
  ≡ₚ [(ForceRebase.MkTableIdentifier "db" "b", 1); (ForceRebase.MkTableIdentifier "db" "a", 1)].
Proof.
  rewrite twoTables_collected.
  rewrite map_to_list_insert by (by rewrite lookup_insert_ne, lookup_empty).
  rewrite map_to_list_insert by apply lookup_empty.
  by rewrite map_to_list_empty.
Qed.

(** C10, counterexample: the map-based variant collects the table [a]
    before the table [b]; the run that rebases [a] first and the run that
    rebases [b] first are both runs of the program, and they pass different
    sequences of statements to [db.Exec]. *)
Lemma map_order_is_not_fixed :
  let f := rebaseFlags false "db" in
  let a := (ForceRebase.MkTableIdentifier "db" "a", 1) in
  let b := (ForceRebase.MkTableIdentifier "db" "b", 1) in
  ForceRebase.runs f twoTables (ForceRebase.main f twoTables [a; b])
  ∧ ForceRebase.runs f twoTables (ForceRebase.main f twoTables [b; a])
  ∧ execStatements (ForceRebase.main f twoTables [a; b])
    = ["ALTER TABLE `db`.`a` AUTO_INCREMENT = 2"; "ALTER TABLE `db`.`b` AUTO_INCREMENT = 2"]
  ∧ execStatements (ForceRebase.main f twoTables [b; a])
    = ["ALTER TABLE `db`.`b` AUTO_INCREMENT = 2"; "ALTER TABLE `db`.`a` AUTO_INCREMENT = 2"]
  ∧ execStatements (ForceRebase.main f twoTables [a; b])
    ≠ execStatements (ForceRebase.main f twoTables [b; a]).
Proof.
  cbv zeta. split; [|split; [|split; [|split]]].
  - eexists. split; [|reflexivity]. unfold ForceRebase.rangeOrder.
    rewrite twoTables_entries. apply perm_swap.
  - eexists. split; [|reflexivity]. unfold ForceRebase.rangeOrder.
    by rewrite twoTables_entries.
  - reflexivity.
  - reflexivity.
  - vm_compute. discriminate.
Qed.

(** C10, amended: in the variant that keeps the facts in a slice, a run with
    a valid mode and an open connection sends first one SHOW TABLES per
    listed schema and then one action statement per fact, and the facts stand
    in the order of collection: schemas in the order of the list, tables in
    the order of the enumeration.  In the variant that keeps them in a map,
    the statements of a run are those of the entries of the map in some
    order. *)
Theorem actions_follow_collection_order {lib : GoStrings} (f : Audit.flags) (db : DB) (m : Audit.mode)
    (g : ForceRebase.flags) (trace : list event) :
  Audit.parseMode (Audit.modeString f) = Some m →
  Open db (Audit.dataSourceName f) = None →
  Open db (ForceRebase.dataSourceName g) = None →
  ForceRebase.runs g db trace →
  (Audit.collectSchemas db (Split (Audit.schemaList f)) []).2
  = flat_map (fun schema =>
                match (getTablesInSchema db schema).2 with
                | Ok tables => flat_map (Audit.tableFacts db schema) tables
                | Failed _ => []
                end)
             (Split (Audit.schemaList f))
  ∧ statementsSent (Audit.main f db)
    = map showTablesQuery (Split (Audit.schemaList f))
      ++ map (Audit.actionQuery m) (Audit.collectSchemas db (Split (Audit.schemaList f)) []).2
  ∧ loggedStatements trace
    ≡ₚ map (fun entry => ForceRebase.alterQuery entry.1 (add64 entry.2 1))
           (map_to_list (ForceRebase.collected g db)).
Proof.
  intros Hmode Hopen Hopen' (order & Hperm & ->). split; [|split].
  - rewrite collectSchemas_closed. reflexivity.
  - unfold Audit.main. rewrite Hmode, Hopen.
    pose proof (collectSchemas_statements db (Split (Audit.schemaList f)) []) as Hc.
    destruct (Audit.collectSchemas db (Split (Audit.schemaList f)) []) as [ev facts].
    cbn [fst snd] in *.
    rewrite statementsSent_app.
    assert (statementsSent match m with
                           | Audit.modeCompare => [Stdout Audit.header]
                           | Audit.modeRebase => []
                           end = []) as -> by (by destruct m).
    cbn [app statementsSent]. rewrite statementsSent_app, Hc. f_equal.
    cbn [app statementsSent]. rewrite statementsSent_app, execute_statements. cbn.
    by rewrite app_nil_r.
  - rewrite (main_logged_statements db g order Hopen').
    by apply Permutation_map.
Qed.

Lemma actions_follow_collection_order_witness :
  statementsSent (Audit.main (auditFlags "rebase" "db") twoTables)
  = ["SHOW TABLES FROM `db`";
     "ALTER TABLE `db`.`a` AUTO_INCREMENT = 2";
     "ALTER TABLE `db`.`b` AUTO_INCREMENT = 2"].
Proof.
  refine (proj1 (proj2 (actions_follow_collection_order
                          (auditFlags "rebase" "db") twoTables Audit.modeRebase
                          (rebaseFlags false "db")
                          (ForceRebase.main (rebaseFlags false "db") twoTables
                             (map_to_list (ForceRebase.collected (rebaseFlags false "db")
                                             twoTables)))
                          eq_refl eq_refl eq_refl _))).
  exists (map_to_list (ForceRebase.collected (rebaseFlags false "db") twoTables)).
  split; [apply Permutation_refl | exact eq_refl].
Defined.

(** * Further properties of the code *)

(** ** Enumeration of the tables of a schema *)

Lemma scanTableNames_ok (schemaName : string) (rows : Rows) (data : list (list cell))
    (names acc : list string) :
  Forall2 nameRow data names → scanTableNames schemaName rows data acc = Ok (acc ++ names).
Proof.
  intros H. revert acc. induction H as [|row name data names (c & -> & Hc) _ IH]; intros acc.
  - cbn. by rewrite app_nil_r.
  - cbn [scanTableNames]. unfold Scan. cbn [scan_cells scan_cell]. rewrite Hc. cbn.
    rewrite IH. by rewrite <- app_assoc.
Qed.

Lemma scanTableNames_inv (schemaName : string) (rows : Rows) (data : list (list cell))
    (tables acc : list string) :
  scanTableNames schemaName rows data acc = Ok tables →
  ∃ names, tables = acc ++ names ∧ Forall2 nameRow data names.
Proof.
  revert acc. induction data as [|row rest IH]; intros acc H.
  - cbn in H. injection H as <-. exists []. by rewrite app_nil_r.
  - cbn [scanTableNames] in H. unfold Scan in H.
    destruct row as [|c [|c' row]]; cbn in H; try discriminate H.
    + destruct (as_string c) as [name|] eqn:Hc; cbn in H; [|discriminate H].
      apply IH in H as (names & -> & Hrest). exists (name :: names).
      split; [by rewrite <- app_assoc|]. constructor; [|done]. by exists c.
    + destruct (as_string c); cbn in H; discriminate H.
Qed.

(** X1: [getTablesInSchema] returns a list of names exactly when the query
    succeeds, every row holds one value that reads as a string, and the
    iteration ends without an error; the names are then those of the rows, in
    the order of the rows.  In every other case it returns an error and no
    part of the list. *)
Theorem getTablesInSchema_ok_iff (db : DB) (schemaName : string) (names : list string) :
  (getTablesInSchema db schemaName).2 = Ok names ↔
  ∃ rows, Query db (showTablesQuery schemaName) = Ok rows
          ∧ Forall2 nameRow (Data rows) names
          ∧ Err rows = None.
Proof.
  unfold getTablesInSchema. cbn [snd]. split.
  - destruct (Query db (showTablesQuery schemaName)) as [rows|err]; [|done].
    destruct (scanTableNames schemaName rows (Data rows) []) as [tables|err] eqn:Hscan;
      [|done].
    destruct (Err rows) eqn:Herr; [done|]. intros [= <-].
    apply scanTableNames_inv in Hscan as (names' & -> & Hrows). eauto.
  - intros (rows & -> & Hrows & ->).
    by rewrite (scanTableNames_ok schemaName rows (Data rows) names []).
Qed.

(** ** The three outcomes of the lookup of the maximum row id *)

Lemma lookup_outcomes_closed (db : DB) (schema table : string) :
  let q := maxRowIDQuery schema table in
  ((Audit.tableEvents db schema table = [SqlQueryRow q]
    ∧ Audit.tableFacts db schema table = [])
   ↔ unknownColumnError_Is (QueryRowScan db q).2 = true ∨ QueryRowScan db q = (0, None))
  ∧ (∀ e, (Audit.tableEvents db schema table = [SqlQueryRow q; Log (LogSkipTable schema table e)]
           ∧ Audit.tableFacts db schema table = [])
          ↔ QueryRowScan db q = (0, Some e) ∧ unknownColumnError_Is (Some e) = false)
  ∧ (Audit.tableFacts db schema table ≠ []
     ↔ unknownColumnError_Is (QueryRowScan db q).2 = false ∧ (QueryRowScan db q).1 ≠ 0).
Proof.
  cbv zeta. unfold Audit.tableEvents, Audit.tableFacts, Audit.observedMax, getMaxRowID.
  destruct (QueryRowScan db (maxRowIDQuery schema table)) as [maxID err]. cbn [fst snd].
  destruct (unknownColumnError_Is err) eqn:His; cbn [fst snd app].
  - split; [|split].
    + split; [by left|done].
    + intros e. split; [intros [[=] _]|intros [[= -> ->] He]]. congruence.
    + split; [done|intros [[=] _]].
  - destruct (Z.eqb_spec maxID 0) as [->|Hne].
    + split; [|split].
      * split.
        -- intros [H _]. right. destruct err; [discriminate H|done].
        -- intros [[=]|[= ->]]. done.
      * intros e. split.
        -- intros [H _]. destruct err as [e'|]; [|discriminate H].
           injection H as ->. done.
        -- intros [[= ->] _]. done.
      * split; [done|intros [_ H]; done].
    + split; [|split].
      * split; [intros [_ [=]]|intros [[=]|[= -> _]]; done].
      * intros e. split; [intros [_ [=]]|intros [[= -> _] _]; done].
      * split; [done|discriminate].
Qed.

(** X2: in the collection loop a table ends in exactly one of three ways,
    decided by the value [maxID] and the error [err] that
    [QueryRow(...).Scan(&maxID)] leaves.  It is skipped without a log line
    exactly when [err] is MySQL error 1054 or the pair is zero and nil; it is
    skipped with the warning for [e] exactly when the pair is zero and [e],
    and [e] is not error 1054; it gets a fact exactly when [err] is not error
    1054 and [maxID] is not zero. *)
Theorem lookup_outcomes (db : DB) (schema table : string)
    (tableInfos : list Audit.tableInfo) :
  let q := maxRowIDQuery schema table in
  (Audit.collectTables db schema [table] tableInfos = ([SqlQueryRow q], tableInfos)
   ↔ unknownColumnError_Is (QueryRowScan db q).2 = true ∨ QueryRowScan db q = (0, None))
  ∧ (∀ e, Audit.collectTables db schema [table] tableInfos
          = ([SqlQueryRow q; Log (LogSkipTable schema table e)], tableInfos)
          ↔ QueryRowScan db q = (0, Some e) ∧ unknownColumnError_Is (Some e) = false)
  ∧ ((Audit.collectTables db schema [table] tableInfos).2 ≠ tableInfos
     ↔ unknownColumnError_Is (QueryRowScan db q).2 = false ∧ (QueryRowScan db q).1 ≠ 0).
Proof.
  cbv zeta. rewrite collectTables_closed. cbn [flat_map snd]. rewrite !app_nil_r.
  destruct (lookup_outcomes_closed db schema table) as (H1 & H2 & H3). cbv zeta in *.
  assert (∀ facts : list Audit.tableInfo, tableInfos ++ facts = tableInfos ↔ facts = [])
    as Happ.
  { intros facts. split; [|by intros ->; rewrite app_nil_r].
    intros H. apply (app_inv_head tableInfos). by rewrite app_nil_r. }
  split; [|split].
  - rewrite <- H1. split.
    + intros [= Hev Hf]. by apply Happ in Hf.
    + intros [-> ->]. by rewrite app_nil_r.
  - intros e. rewrite <- H2. split.
    + intros [= Hev Hf]. by apply Happ in Hf.
    + intros [-> ->]. by rewrite app_nil_r.
  - rewrite <- H3, Happ. done.
Qed.

(** ** The list of schemas *)

Lemma append_assoc3 (a b c : string) : (a +:+ b) +:+ c = a +:+ (b +:+ c).
Proof.
  induction a as [|x a IH]; [done|].
  change (String x ((a +:+ b) +:+ c) = String x (a +:+ (b +:+ c))). by rewrite IH.
Qed.

Lemma append_empty_r (a : string) : a +:+ EmptyString = a.
Proof.
  induction a as [|x a IH]; [done|].
  change (String x (a +:+ EmptyString) = String x a). by rewrite IH.
Qed.

Lemma hasComma_app (a b : string) : hasComma (a +:+ b) = hasComma a || hasComma b.
Proof.
  induction a as [|x a IH]; [done|].
  change (Ascii.eqb x "," || hasComma (a +:+ b)
          = (Ascii.eqb x "," || hasComma a) || hasComma b).
  by rewrite IH, orb_assoc.
Qed.

Lemma split_comma_nonempty (cur s : string) : split_comma cur s ≠ [].
Proof.
  revert cur. induction s as [|c r IH]; intros cur; cbn; [done|].
  destruct (Ascii.eqb c ","); [done|apply IH].
Qed.

Lemma Join_split_comma (cur s : string) : Join (split_comma cur s) = cur +:+ s.
Proof.
  revert cur. induction s as [|c r IH]; intros cur; cbn [split_comma].
  - cbn. by rewrite append_empty_r.
  - destruct (Ascii.eqb_spec c ",") as [->|_].
    + specialize (IH EmptyString). pose proof (split_comma_nonempty EmptyString r) as Hne.
      destruct (split_comma EmptyString r) as [|field rest]; [done|].
      cbn [Join] in *. by rewrite IH.
    + rewrite IH, append_assoc3. reflexivity.
Qed.

Lemma split_comma_fields (cur s : string) :
  hasComma cur = false → Forall (fun field => hasComma field = false) (split_comma cur s).
Proof.
  revert cur. induction s as [|c r IH]; intros cur Hcur; cbn [split_comma].
  - by constructor.
  - destruct (Ascii.eqb c ",") eqn:Hc.
    + constructor; [done|]. by apply IH.
    + apply IH. rewrite hasComma_app, Hcur. cbn. by rewrite Hc.
Qed.

(** X3: the schema list that [main] iterates over is never empty, none of its
    fields holds a comma, and joining the fields with commas gives the value
    of the [-schemas] flag back: the flag is cut at every comma and nowhere
    else, keeping empty fields. *)
Theorem Split_round_trip (s : string) :
  Split s ≠ []
  ∧ Forall (fun field => hasComma field = false) (Split s)
  ∧ Join (Split s) = s.
Proof.
  unfold Split. split; [apply split_comma_nonempty|]. split.
  - by apply split_comma_fields.
  - by rewrite Join_split_comma.
Qed.

(** ** Statements and the tables they name *)

Lemma fmt_d_inj (a b : Z) : fmt_d a = fmt_d b → a = b.
Proof.
  unfold fmt_d. intros H. apply DecimalZ.to_int_inj.
  assert (∀ z, NilZero.int_of_string (NilZero.string_of_int (Z.to_int z)) = Some (Z.to_int z))
    as Hrt.
  { intros z. apply NilZero.isi; destruct z; cbn; try discriminate;
      intros [= Hnil]; by apply DecimalPos.Unsigned.to_uint_nonnil in Hnil. }
  pose proof (Hrt a) as Ha. rewrite H, Hrt in Ha. by injection Ha.
Qed.

(** X4: where no name holds a backtick, a statement names one table only: the
    text of the rebase statement fixes the schema, the table and the value
    (in both variants), and the texts of the SHOW TABLE NEXT_ROW_ID and
    SELECT max statements fix the schema and the table. *)
Theorem statements_name_one_table (s1 t1 s2 t2 : string) (a1 a2 : Z) :
  countBackticks s1 = 0%nat → countBackticks t1 = 0%nat →
  countBackticks s2 = 0%nat → countBackticks t2 = 0%nat →
  (Audit.rebaseQuery (Audit.MkTableInfo s1 t1 a1)
   = Audit.rebaseQuery (Audit.MkTableInfo s2 t2 a2) → s1 = s2 ∧ t1 = t2 ∧ a1 = a2)
  ∧ (ForceRebase.alterQuery (ForceRebase.MkTableIdentifier s1 t1) a1
     = ForceRebase.alterQuery (ForceRebase.MkTableIdentifier s2 t2) a2
     → s1 = s2 ∧ t1 = t2 ∧ a1 = a2)
  ∧ (Audit.nextRowIDQuery (Audit.MkTableInfo s1 t1 a1)
     = Audit.nextRowIDQuery (Audit.MkTableInfo s2 t2 a2) → s1 = s2 ∧ t1 = t2)
  ∧ (maxRowIDQuery s1 t1 = maxRowIDQuery s2 t2 → s1 = s2 ∧ t1 = t2).
Proof.
  intros Hs1 Ht1 Hs2 Ht2.
  assert (∀ r1 r2, s1 +:+ "`.`" +:+ t1 +:+ String "`" r1 = s2 +:+ "`.`" +:+ t2 +:+ String "`" r2
                   → s1 = s2 ∧ t1 = t2 ∧ r1 = r2) as Hcut.
  { intros r1 r2 Heq. cbn in Heq.
    apply cut_at_first_backtick in Heq as [Hs Heq]; [|done..].
    injection Heq as Heq. apply cut_at_first_backtick in Heq as [Ht Hr]; done. }
  split; [|split; [|split]].
  - unfold Audit.rebaseQuery. cbn [Audit.Schema Audit.Table Audit.AutoInc]. intros Heq.
    apply append_cancel_prefix in Heq. apply Hcut in Heq as (-> & -> & Heq).
    apply (append_cancel_prefix " AUTO_INCREMENT = ") in Heq. by apply fmt_d_inj in Heq.
  - unfold ForceRebase.alterQuery. cbn [ForceRebase.Schema ForceRebase.Table]. intros Heq.
    apply append_cancel_prefix in Heq. apply Hcut in Heq as (-> & -> & Heq).
    apply (append_cancel_prefix " AUTO_INCREMENT = ") in Heq. by apply fmt_d_inj in Heq.
  - unfold Audit.nextRowIDQuery. cbn [Audit.Schema Audit.Table]. intros Heq.
    apply append_cancel_prefix in Heq. by apply Hcut in Heq as (-> & -> & _).
  - unfold maxRowIDQuery. intros Heq.
    apply append_cancel_prefix in Heq. by apply Hcut in Heq as (-> & -> & _).
Qed.

Lemma statements_name_one_table_witness :
  countBackticks "db" = 0%nat ∧ countBackticks "order" = 0%nat
  ∧ "db" = "db" ∧ "order" = "order" ∧ 8 = 8.
Proof.
  split; [reflexivity|]. split; [reflexivity|].
  exact (proj1 (statements_name_one_table "db" "order" "db" "order" 8 8
                  eq_refl eq_refl eq_refl eq_refl) eq_refl).
Defined.

(** ** Finding the columns of the metadata answer *)

Section FindColumns.
Import Audit.
Context {lib : GoStrings}.

(** What the loop does for one of the two names, from any start: the index
    is kept when no column has the name, and is otherwise the position of the
    last column that has it. *)
Lemma findColumns_id_type cols k i j :
  ((findColumns cols k i j).1 = i ∧ ∀ c, In c cols → ToUpper c ≠ "ID_TYPE")
  ∨ ∃ n c, cols !! n = Some c ∧ ToUpper c = "ID_TYPE"
           ∧ (findColumns cols k i j).1 = k + Z.of_nat n
           ∧ ∀ n' c', (n < n')%nat → cols !! n' = Some c' → ToUpper c' ≠ "ID_TYPE".
Proof.
  revert k i j. induction cols as [|c cols IH]; intros k i j.
  - left. split; [done|]. intros c [].
  - cbn [findColumns].
    destruct (String.eqb_spec (ToUpper c) "ID_TYPE") as [Hc|Hc].
    + right. destruct (IH (k + 1) k j) as [[Hi Hno]|(n & c' & Hn & Hc' & Hi & Hlast)].
      * exists 0%nat, c. rewrite Hi. repeat split; [done|lia|].
        intros [|n'] c' Hlt Hn'; [lia|]. apply Hno. cbn in Hn'.
        apply list_elem_of_In, list_elem_of_lookup. eauto.
      * exists (S n), c'. rewrite Hi. repeat split; [done|done|lia|].
        intros [|n'] c'' Hlt Hn'; [lia|]. apply (Hlast n'); [lia|done].
    + assert (∀ j', ((findColumns cols (k + 1) i j').1 = i
                     ∧ ∀ c0, In c0 (c :: cols) → ToUpper c0 ≠ "ID_TYPE")
                    ∨ ∃ n c0, (c :: cols) !! n = Some c0 ∧ ToUpper c0 = "ID_TYPE"
                              ∧ (findColumns cols (k + 1) i j').1 = k + Z.of_nat n
                              ∧ ∀ n' c', (n < n')%nat → (c :: cols) !! n' = Some c'
                                         → ToUpper c' ≠ "ID_TYPE") as Hstep.
      { intros j'. destruct (IH (k + 1) i j') as [[Hi Hno]|(n & c' & Hn & Hc' & Hi & Hlast)].
        - left. split; [done|]. intros c0 [<-|Hin]; [done|by apply Hno].
        - right. exists (S n), c'. rewrite Hi. repeat split; [done|done|lia|].
          intros [|n'] c'' Hlt Hn'; [lia|]. apply (Hlast n'); [lia|done]. }
      destruct (String.eqb (ToUpper c) "NEXT_GLOBAL_ROW_ID"); apply Hstep.
Qed.

Lemma findColumns_next_id cols k i j :
  ((findColumns cols k i j).2 = j ∧ ∀ c, In c cols → ToUpper c ≠ "NEXT_GLOBAL_ROW_ID")
  ∨ ∃ n c, cols !! n = Some c ∧ ToUpper c = "NEXT_GLOBAL_ROW_ID"
           ∧ (findColumns cols k i j).2 = k + Z.of_nat n
           ∧ ∀ n' c', (n < n')%nat → cols !! n' = Some c'
                      → ToUpper c' ≠ "NEXT_GLOBAL_ROW_ID".
Proof.
  revert k i j. induction cols as [|c cols IH]; intros k i j.
  - left. split; [done|]. intros c [].
  - cbn [findColumns].
    assert (∀ i', ToUpper c ≠ "NEXT_GLOBAL_ROW_ID" →
                  ((findColumns cols (k + 1) i' j).2 = j
                   ∧ ∀ c0, In c0 (c :: cols) → ToUpper c0 ≠ "NEXT_GLOBAL_ROW_ID")
                  ∨ ∃ n c0, (c :: cols) !! n = Some c0 ∧ ToUpper c0 = "NEXT_GLOBAL_ROW_ID"
                            ∧ (findColumns cols (k + 1) i' j).2 = k + Z.of_nat n
                            ∧ ∀ n' c', (n < n')%nat → (c :: cols) !! n' = Some c'
                                       → ToUpper c' ≠ "NEXT_GLOBAL_ROW_ID") as Hstep.
    { intros i' Hc. destruct (IH (k + 1) i' j) as [[Hj Hno]|(n & c' & Hn & Hc' & Hj & Hlast)].
      - left. split; [done|]. intros c0 [<-|Hin]; [done|by apply Hno].
      - right. exists (S n), c'. rewrite Hj. repeat split; [done|done|lia|].
        intros [|n'] c'' Hlt Hn'; [lia|]. apply (Hlast n'); [lia|done]. }
    destruct (String.eqb_spec (ToUpper c) "ID_TYPE") as [Hc|Hc].
    + apply Hstep. rewrite Hc. discriminate.
    + destruct (String.eqb_spec (ToUpper c) "NEXT_GLOBAL_ROW_ID") as [Hc'|Hc'].
      * right. destruct (IH (k + 1) i k) as [[Hj Hno]|(n & c' & Hn & Hc'' & Hj & Hlast)].
        -- exists 0%nat, c. rewrite Hj. repeat split; [done|lia|].
           intros [|n'] c' Hlt Hn'; [lia|]. apply Hno. cbn in Hn'.
           apply list_elem_of_In, list_elem_of_lookup. eauto.
        -- exists (S n), c'. rewrite Hj. repeat split; [done|done|lia|].
           intros [|n'] c'' Hlt Hn'; [lia|]. apply (Hlast n'); [lia|done].
      * by apply Hstep.
Qed.
End FindColumns.

(** The result of the search follows the function in the place of
    [strings.ToUpper]: with one that maps the dotless i to I, the column
    spelled with it is the scheme-name column and the record is printed. *)
Lemma dotless_i_column_is_found :
  @Audit.findColumns dotlessStrings ["NEXT_GLOBAL_ROW_ID"; "ıd_type"] 0 (-1) (-1) = (1, 0)
  ∧ @Audit.compareAutoIncrement dotlessStrings dotlessServer (Audit.MkTableInfo "db" "t" 50)
    = ([SqlQuery "SHOW TABLE `db`.`t` NEXT_ROW_ID";
        Stdout (Audit.csvLine "db" "t" 50 50 "ok")], None).
Proof. split; reflexivity. Qed.

(** X5: the search for the two required columns, for every function in the
    place of [strings.ToUpper].  An index is -1 exactly when that function
    maps no column name to the required name; otherwise it is the position of
    the last column that it maps to the name, so it lies within the columns;
    and when the scheme-name column is found the two indices differ. *)
Theorem findColumns_finds_last {lib : GoStrings} (cols : list string) (i j : Z) :
  Audit.findColumns cols 0 (-1) (-1) = (i, j) →
  (i = -1 ↔ ∀ c, In c cols → ToUpper c ≠ "ID_TYPE")
  ∧ (j = -1 ↔ ∀ c, In c cols → ToUpper c ≠ "NEXT_GLOBAL_ROW_ID")
  ∧ (i ≠ -1 →
     0 <= i < Z.of_nat (List.length cols)
     ∧ (∃ c, cols !! Z.to_nat i = Some c ∧ ToUpper c = "ID_TYPE")
     ∧ ∀ n c, (Z.to_nat i < n)%nat → cols !! n = Some c → ToUpper c ≠ "ID_TYPE")
  ∧ (j ≠ -1 →
     0 <= j < Z.of_nat (List.length cols)
     ∧ (∃ c, cols !! Z.to_nat j = Some c ∧ ToUpper c = "NEXT_GLOBAL_ROW_ID")
     ∧ ∀ n c, (Z.to_nat j < n)%nat → cols !! n = Some c
              → ToUpper c ≠ "NEXT_GLOBAL_ROW_ID")
  ∧ (i ≠ -1 → i ≠ j).
Proof.
  intros Hf.
  pose proof (findColumns_id_type cols 0 (-1) (-1)) as Hi.
  pose proof (findColumns_next_id cols 0 (-1) (-1)) as Hj.
  rewrite Hf in Hi, Hj. cbn [fst snd] in Hi, Hj.
  assert (i ≠ -1 →
          0 <= i < Z.of_nat (List.length cols)
          ∧ (∃ c, cols !! Z.to_nat i = Some c ∧ ToUpper c = "ID_TYPE")
          ∧ ∀ n c, (Z.to_nat i < n)%nat → cols !! n = Some c → ToUpper c ≠ "ID_TYPE") as Hi'.
  { intros Hne. destruct Hi as [[-> _]|(n & c & Hn & Hc & -> & Hlast)]; [done|].
    rewrite Z.add_0_l, Nat2Z.id. apply lookup_lt_Some in Hn as Hlt.
    split; [lia|]. split; [eauto|]. done. }
  assert (j ≠ -1 →
          0 <= j < Z.of_nat (List.length cols)
          ∧ (∃ c, cols !! Z.to_nat j = Some c ∧ ToUpper c = "NEXT_GLOBAL_ROW_ID")
          ∧ ∀ n c, (Z.to_nat j < n)%nat → cols !! n = Some c
                   → ToUpper c ≠ "NEXT_GLOBAL_ROW_ID") as Hj'.
  { intros Hne. destruct Hj as [[-> _]|(n & c & Hn & Hc & -> & Hlast)]; [done|].
    rewrite Z.add_0_l, Nat2Z.id. apply lookup_lt_Some in Hn as Hlt.
    split; [lia|]. split; [eauto|]. done. }
  split; [|split; [|split; [|split]]]; [| |done|done|].
  - split.
    + intros ->. destruct Hi as [[_ Hno]|(n & c & _ & _ & Heq & _)]; [done|lia].
    + intros Hno. destruct Hi as [[-> _]|(n & c & Hn & Hc & _)]; [done|].
      exfalso. apply (Hno c); [|done]. apply list_elem_of_In, list_elem_of_lookup. eauto.
  - split.
    + intros ->. destruct Hj as [[_ Hno]|(n & c & _ & _ & Heq & _)]; [done|lia].
    + intros Hno. destruct Hj as [[-> _]|(n & c & Hn & Hc & _)]; [done|].
      exfalso. apply (Hno c); [|done]. apply list_elem_of_In, list_elem_of_lookup. eauto.
  - intros Hne <-. destruct (Hi' Hne) as (_ & (c & Hc & Hup) & _).
    destruct (Hj' Hne) as (_ & (c' & Hc' & Hup') & _).
    rewrite Hc in Hc'. injection Hc' as <-. rewrite Hup in Hup'. discriminate Hup'.
Qed.

Lemma findColumns_finds_last_witness :
  Audit.findColumns ["DB_NAME"; "id_type"; "TABLE_NAME"; "next_global_row_id"; "Id_Type"]
    0 (-1) (-1) = (4, 3)
  ∧ 0 <= 4 < 5
  ∧ 4 ≠ 3.
Proof.
  pose proof (findColumns_finds_last
                ["DB_NAME"; "id_type"; "TABLE_NAME"; "next_global_row_id"; "Id_Type"] 4 3
                eq_refl) as (_ & _ & H3 & _ & H5).
  split; [reflexivity|]. split.
  - apply H3. discriminate.
  - apply H5. discriminate.
Defined.

Lemma findColumns_upper {lib : GoStrings} (cols cols' : list string) (k i j : Z) :
  map ToUpper cols = map ToUpper cols' →
  Audit.findColumns cols k i j = Audit.findColumns cols' k i j.
Proof.
  revert cols' k i j. induction cols as [|c cols IH]; intros [|c' cols'] k i j H;
    try discriminate H; [done|].
  injection H as Hc H. cbn [Audit.findColumns]. rewrite Hc.
  destruct (String.eqb (ToUpper c') "ID_TYPE"); [by apply IH|].
  destruct (String.eqb (ToUpper c') "NEXT_GLOBAL_ROW_ID"); by apply IH.
Qed.

Lemma compareRows_same_but_scan_error (rows rows' : Rows) (t : Audit.tableInfo)
    (scanArgs : list dest) (i j : Z) (data : list (list cell)) :
  (Audit.compareRows rows t scanArgs i j data).1
  = (Audit.compareRows rows' t scanArgs i j data).1
  ∧ ((Audit.compareRows rows t scanArgs i j data).2
     = (Audit.compareRows rows' t scanArgs i j data).2
     ∨ ∃ e e',
         (Audit.compareRows rows t scanArgs i j data).2
         = Some (Errorf ("scanning row for schema '" +:+ Audit.Schema t +:+ "' table '"
                           +:+ Audit.Table t +:+ "'") e)
         ∧ (Audit.compareRows rows' t scanArgs i j data).2
           = Some (Errorf ("scanning row for schema '" +:+ Audit.Schema t +:+ "' table '"
                             +:+ Audit.Table t +:+ "'") e')).
Proof.
  induction data as [|row rest [IHe IHr]]; [by split; [|left]|].
  cbn [Audit.compareRows]. unfold Scan. destruct (scan_cells scanArgs row) as [vs|].
  - destruct (negb _); [done|].
    destruct (Audit.compareRows rows t scanArgs i j rest) as [out err].
    destruct (Audit.compareRows rows' t scanArgs i j rest) as [out' err'].
    cbn [fst snd] in *. by rewrite IHe.
  - split; [done|]. right. eauto.
Qed.

(** X6: the comparison does not depend on the case of the column names.  Two
    metadata answers with the same rows and the same iteration error, whose
    column names agree once [strings.ToUpper] is applied, print the same
    records, and one comparison returns an error exactly when the other
    does.  The two errors are equal, unless both are the scan error of a row,
    which each answer words for itself, in the same context. *)
Theorem compare_ignores_column_case {lib : GoStrings} (db db' : DB) (t : Audit.tableInfo)
    (rows rows' : Rows) (cols cols' : list string) :
  Query db (Audit.nextRowIDQuery t) = Ok rows →
  Query db' (Audit.nextRowIDQuery t) = Ok rows' →
  Columns rows = Ok cols →
  Columns rows' = Ok cols' →
  map ToUpper cols = map ToUpper cols' →
  Data rows = Data rows' →
  Err rows = Err rows' →
  (Audit.compareAutoIncrement db t).1 = (Audit.compareAutoIncrement db' t).1
  ∧ ((Audit.compareAutoIncrement db t).2 = None
     ↔ (Audit.compareAutoIncrement db' t).2 = None)
  ∧ ((Audit.compareAutoIncrement db t).2 = (Audit.compareAutoIncrement db' t).2
     ∨ ∃ e e',
         (Audit.compareAutoIncrement db t).2
         = Some (Errorf ("scanning row for schema '" +:+ Audit.Schema t +:+ "' table '"
                           +:+ Audit.Table t +:+ "'") e)
         ∧ (Audit.compareAutoIncrement db' t).2
           = Some (Errorf ("scanning row for schema '" +:+ Audit.Schema t +:+ "' table '"
                             +:+ Audit.Table t +:+ "'") e')).
Proof.
  intros Hq Hq' Hc Hc' Hup Hdata Herr. unfold Audit.compareAutoIncrement.
  rewrite Hq, Hq', Hc, Hc', Hdata, Herr, (findColumns_upper cols cols' _ _ _ Hup).
  assert (List.length cols = List.length cols') as ->.
  { by rewrite <- (length_map ToUpper cols), Hup, length_map. }
  destruct (Audit.findColumns cols' 0 (-1) (-1)) as [i j].
  destruct (_ || _).
  { split; [done|]. split; [done|]. by left. }
  destruct (compareRows_same_but_scan_error rows rows' t
              (Audit.makeScanArgs (List.length cols') i j) i j (Data rows')) as [He Hr].
  destruct (Audit.compareRows rows t _ i j (Data rows')) as [out err].
  destruct (Audit.compareRows rows' t _ i j (Data rows')) as [out' err'].
  cbn [fst snd] in *. subst out'. split; [done|].
  destruct Hr as [->|(e & e' & -> & ->)].
  - split; [done|by left].
  - split; [done|]. right. eauto.
Qed.

Lemma compare_ignores_column_case_witness :
  (Audit.compareAutoIncrement exampleServer (Audit.MkTableInfo "db" "t" 50)).1
  = (Audit.compareAutoIncrement exampleServerLowerCase (Audit.MkTableInfo "db" "t" 50)).1.
Proof.
  exact (proj1 (compare_ignores_column_case exampleServer exampleServerLowerCase
                  (Audit.MkTableInfo "db" "t" 50) _ _ _ _
                  eq_refl eq_refl eq_refl eq_refl eq_refl eq_refl eq_refl)).
Defined.

(** ** Errors in the middle of a comparison *)

Lemma compareRows_scan_error (rows : Rows) (t : Audit.tableInfo) (cols : list string)
    (i j : Z) (pre : list (list cell)) (bad : list cell) (post : list (list cell))
    (views : list (string * Z)) (err : error) :
  Forall2 (Audit.scansTo cols i j) pre views →
  Scan rows (Audit.makeScanArgs (List.length cols) i j) bad = Failed err →
  Audit.compareRows rows t (Audit.makeScanArgs (List.length cols) i j) i j
    (pre ++ bad :: post)
  = (map (Audit.reportLine t) (List.filter Audit.isRowID views),
     Some (Errorf ("scanning row for schema '" +:+ Audit.Schema t +:+ "' table '"
                     +:+ Audit.Table t +:+ "'") err)).
Proof.
  intros Hpre Hbad.
  induction Hpre as [|row view pre views (vs & Hscan & Hs & Hn) _ IH].
  - cbn [app Audit.compareRows]. by rewrite Hbad.
  - cbn [app Audit.compareRows List.filter]. unfold Scan at 1. rewrite Hscan, Hs, Hn.
    unfold Audit.isRowID at 1. destruct (String.eqb view.1 "_TIDB_ROWID"); cbn [negb].
    + rewrite IH. reflexivity.
    + exact IH.
Qed.

(** X7: when a row of the metadata answer fails to scan, the comparison
    returns the scan error in its context; the records of the matching rows
    before that row have been printed and stay printed, and neither the rows
    after it nor the iteration error are looked at. *)
Theorem compare_stops_at_scan_error {lib : GoStrings} (db : DB) (t : Audit.tableInfo) (rows : Rows)
    (cols : list string) (i j : Z) (pre : list (list cell)) (bad : list cell)
    (post : list (list cell)) (views : list (string * Z)) (err : error) :
  Query db (Audit.nextRowIDQuery t) = Ok rows →
  Columns rows = Ok cols →
  Audit.findColumns cols 0 (-1) (-1) = (i, j) →
  i ≠ -1 → j ≠ -1 →
  Data rows = pre ++ bad :: post →
  Forall2 (Audit.scansTo cols i j) pre views →
  Scan rows (Audit.makeScanArgs (List.length cols) i j) bad = Failed err →
  Audit.compareAutoIncrement db t
  = (SqlQuery (Audit.nextRowIDQuery t)
       :: map (Audit.reportLine t) (List.filter Audit.isRowID views),
     Some (Errorf ("scanning row for schema '" +:+ Audit.Schema t +:+ "' table '"
                     +:+ Audit.Table t +:+ "'") err)).
Proof.
  intros Hq Hc Hf Hi Hj Hdata Hpre Hbad. unfold Audit.compareAutoIncrement.
  rewrite Hq, Hc, Hf.
  destruct (Z.eqb_spec i (-1)); [done|]. destruct (Z.eqb_spec j (-1)); [done|].
  cbn [orb]. rewrite Hdata.
  by rewrite (compareRows_scan_error rows t cols i j pre bad post views err Hpre Hbad).
Qed.

Lemma compare_stops_at_scan_error_witness :
  Audit.compareAutoIncrement serverWithNull (Audit.MkTableInfo "db" "t" 50)
  = ([SqlQuery "SHOW TABLE `db`.`t` NEXT_ROW_ID";
      Stdout (Audit.csvLine "db" "t" 50 50 "ok")],
     Some (Errorf "scanning row for schema 'db' table 't'" scan_error)).
Proof.
  refine (compare_stops_at_scan_error serverWithNull (Audit.MkTableInfo "db" "t" 50)
            rowsWithNull ["NEXT_GLOBAL_ROW_ID"; "ID_TYPE"] 1 0
            [[Cell (Some "50") (Some 50); Cell (Some "_TIDB_ROWID") None]]
            [Cell None None; Cell (Some "_TIDB_ROWID") None]
            [[Cell (Some "70") (Some 70); Cell (Some "_TIDB_ROWID") None]]
            [("_TIDB_ROWID", 50)] scan_error
            eq_refl eq_refl eq_refl _ _ eq_refl _ eq_refl); try lia.
  constructor; [|constructor]. eexists. split; [reflexivity|]. split; reflexivity.
Defined.

(** X8: when every row scans and the iteration ends with an error, the
    comparison returns that error in its context, after the records of all
    matching rows have been printed. *)
Theorem compare_reports_iteration_error {lib : GoStrings} (db : DB) (t : Audit.tableInfo) (rows : Rows)
    (cols : list string) (i j : Z) (views : list (string * Z)) (err : error) :
  Query db (Audit.nextRowIDQuery t) = Ok rows →
  Columns rows = Ok cols →
  Audit.findColumns cols 0 (-1) (-1) = (i, j) →
  i ≠ -1 → j ≠ -1 →
  Forall2 (Audit.scansTo cols i j) (Data rows) views →
  Err rows = Some err →
  Audit.compareAutoIncrement db t
  = (SqlQuery (Audit.nextRowIDQuery t)
       :: map (Audit.reportLine t) (List.filter Audit.isRowID views),
     Some (Errorf ("iterating next row id results for '"
                     +:+ (Audit.Schema t +:+ "." +:+ Audit.Table t) +:+ "'") err)).
Proof.
  intros Hq Hc Hf Hi Hj Hrows Herr. unfold Audit.compareAutoIncrement.
  rewrite Hq, Hc, Hf.
  destruct (Z.eqb_spec i (-1)); [done|]. destruct (Z.eqb_spec j (-1)); [done|].
  cbn [orb]. rewrite (compareRows_closed rows t cols i j _ views Hrows), Herr. reflexivity.
Qed.

Lemma compare_reports_iteration_error_witness :
  Audit.compareAutoIncrement serverCutShort (Audit.MkTableInfo "db" "t" 50)
  = ([SqlQuery "SHOW TABLE `db`.`t` NEXT_ROW_ID";
      Stdout (Audit.csvLine "db" "t" 50 50 "ok")],
     Some (Errorf "iterating next row id results for 'db.t'" closeError)).
Proof.
  refine (compare_reports_iteration_error serverCutShort (Audit.MkTableInfo "db" "t" 50)
            rowsCutShort ["NEXT_GLOBAL_ROW_ID"; "ID_TYPE"] 1 0
            [("_TIDB_ROWID", 50)] closeError
            eq_refl eq_refl eq_refl _ _ _ eq_refl); try lia.
  constructor; [|constructor]. eexists. split; [reflexivity|]. split; reflexivity.
Defined.

(** ** The collection phase only reads *)

Lemma stdoutLines_app (a b : list event) :
  stdoutLines (a ++ b) = stdoutLines a ++ stdoutLines b.
Proof.
  induction a as [|e a IH]; [done|].
  destruct e; cbn [app stdoutLines]; rewrite IH; done.
Qed.

Lemma queryRowStatements_app (a b : list event) :
  queryRowStatements (a ++ b) = queryRowStatements a ++ queryRowStatements b.
Proof.
  induction a as [|e a IH]; [done|].
  destruct e; cbn [app queryRowStatements]; rewrite IH; done.
Qed.

Lemma collection_events_read_nothing_else (trace : list event) :
  Forall (fun e => isCollectionEvent e = true) trace →
  execStatements trace = [] ∧ loggedStatements trace = [] ∧ stdoutLines trace = [].
Proof.
  induction 1 as [|e trace He _ IH]; [done|].
  destruct e as [| l | | | | | |]; try discriminate He; try exact IH.
  destruct l; try discriminate He; exact IH.
Qed.

Lemma tableEvents_are_collection_events (db : DB) (schema table : string) :
  Forall (fun e => isCollectionEvent e = true) (Audit.tableEvents db schema table).
Proof.
  unfold Audit.tableEvents. pose proof (getMaxRowID_events db schema table) as Hev.
  destruct (getMaxRowID db schema table) as [ev [maxID err]]. cbn [fst] in Hev. subst ev.
  destruct (maxID =? 0); [|by repeat constructor].
  destruct err; by repeat constructor.
Qed.

Lemma schemaEvents_are_collection_events (db : DB) (schema : string) :
  Forall (fun e => isCollectionEvent e = true) (Audit.schemaEvents db schema).
Proof.
  unfold Audit.schemaEvents. rewrite getTablesInSchema_events.
  constructor; [done|]. constructor; [done|].
  destruct (getTablesInSchema db schema).2 as [tables|err]; [|by repeat constructor].
  induction tables as [|table rest IH]; [constructor|].
  cbn [flat_map]. apply Forall_app. split; [apply tableEvents_are_collection_events|done].
Qed.

(** The map-based variant goes through the same events as the slice-based
    one while it collects. *)
Lemma map_collectTables_events (db : DB) (schema : string) (tables : list string)
    (maxRowIDs : gmap ForceRebase.tableIdentifier Z) :
  (ForceRebase.collectTables db schema tables maxRowIDs).1
  = flat_map (Audit.tableEvents db schema) tables.
Proof.
  revert maxRowIDs. induction tables as [|table rest IH]; intros maxRowIDs; [done|].
  cbn [ForceRebase.collectTables flat_map]. unfold Audit.tableEvents at 1.
  destruct (getMaxRowID db schema table) as [ev [maxID err]].
  destruct (maxID =? 0).
  - specialize (IH maxRowIDs).
    destruct (ForceRebase.collectTables db schema rest maxRowIDs) as [ev' m'].
    cbn [fst] in *. by rewrite IH, <- app_assoc.
  - specialize (IH (<[ForceRebase.MkTableIdentifier schema table := maxID]> maxRowIDs)).
    destruct (ForceRebase.collectTables db schema rest _) as [ev' m'].
    cbn [fst] in *. by rewrite IH, app_nil_r.
Qed.

Lemma map_collectSchemas_events (db : DB) (schemas : list string)
    (maxRowIDs : gmap ForceRebase.tableIdentifier Z) :
  (ForceRebase.collectSchemas db schemas maxRowIDs).1
  = flat_map (Audit.schemaEvents db) schemas.
Proof.
  revert maxRowIDs. induction schemas as [|schema rest IH]; intros maxRowIDs; [done|].
  cbn [ForceRebase.collectSchemas flat_map]. unfold Audit.schemaEvents at 1.
  destruct (getTablesInSchema db schema) as [ev [tables|err]]; cbn [fst snd].
  - pose proof (map_collectTables_events db schema tables maxRowIDs) as Ht.
    destruct (ForceRebase.collectTables db schema tables maxRowIDs) as [evt m1].
    specialize (IH m1). destruct (ForceRebase.collectSchemas db rest m1) as [ev' m'].
    cbn [fst] in *. rewrite IH, Ht. cbn [app]. by rewrite <- !app_assoc.
  - specialize (IH maxRowIDs).
    destruct (ForceRebase.collectSchemas db rest maxRowIDs) as [ev' m'].
    cbn [fst] in *. rewrite IH. cbn [app]. by rewrite <- app_assoc.
Qed.

Lemma collection_is_read_only (db : DB) (schemas : list string) :
  Forall (fun e => isCollectionEvent e = true) (flat_map (Audit.schemaEvents db) schemas).
Proof.
  induction schemas as [|schema rest IH]; [constructor|].
  cbn [flat_map]. apply Forall_app. split; [apply schemaEvents_are_collection_events|done].
Qed.

(** X9: the collection phase is the same in the two variants, event for
    event, whatever the slice or the map holds at the start; its events are
    queries and log lines only: it passes nothing to [db.Exec], logs no
    statement and prints nothing. *)
Theorem collection_phase_only_reads (db : DB) (schemas : list string)
    (tableInfos : list Audit.tableInfo) (maxRowIDs : gmap ForceRebase.tableIdentifier Z) :
  (ForceRebase.collectSchemas db schemas maxRowIDs).1
  = (Audit.collectSchemas db schemas tableInfos).1
  ∧ Forall (fun e => isCollectionEvent e = true) (Audit.collectSchemas db schemas tableInfos).1
  ∧ execStatements (Audit.collectSchemas db schemas tableInfos).1 = []
  ∧ loggedStatements (Audit.collectSchemas db schemas tableInfos).1 = []
  ∧ stdoutLines (Audit.collectSchemas db schemas tableInfos).1 = [].
Proof.
  rewrite map_collectSchemas_events, collectSchemas_closed. cbn [fst].
  pose proof (collection_is_read_only db schemas) as H.
  split; [done|]. split; [done|]. by apply collection_events_read_nothing_else.
Qed.

(** X10: during the collection phase the maximum row id is looked up once
    for every table of every listed schema whose enumeration succeeds, in the
    order of the schema list and of the enumeration, and for no other table. *)
Theorem one_lookup_per_enumerated_table (db : DB) (schemas : list string)
    (tableInfos : list Audit.tableInfo) :
  queryRowStatements (Audit.collectSchemas db schemas tableInfos).1
  = flat_map (fun schema =>
                match (getTablesInSchema db schema).2 with
                | Ok tables => map (maxRowIDQuery schema) tables
                | Failed _ => []
                end)
             schemas.
Proof.
  rewrite collectSchemas_closed. cbn [fst].
  induction schemas as [|schema rest IH]; [done|].
  cbn [flat_map]. rewrite queryRowStatements_app, IH. f_equal.
  unfold Audit.schemaEvents. rewrite getTablesInSchema_events.
  cbn [app queryRowStatements].
  destruct (getTablesInSchema db schema).2 as [tables|err]; [|done].
  induction tables as [|table tables IHt]; [done|].
  cbn [flat_map map]. rewrite queryRowStatements_app, IHt. f_equal.
  unfold Audit.tableEvents. pose proof (getMaxRowID_events db schema table) as Hev.
  destruct (getMaxRowID db schema table) as [ev [maxID err]]. cbn [fst] in Hev. subst ev.
  destruct (maxID =? 0); [|done]. by destruct err.
Qed.

(** ** The execution phase and the whole run *)

Section WholeRun.
Import Audit.
Context {lib : GoStrings}.
Variable db : DB.

Lemma compareRows_only_prints rows t scanArgs i j data :
  (compareRows rows t scanArgs i j data).1
  = map Stdout (stdoutLines (compareRows rows t scanArgs i j data).1).
Proof.
  induction data as [|row rest IH]; [done|].
  cbn [compareRows]. destruct (Scan rows scanArgs row) as [vs|err]; [|done].
  destruct (negb _); [done|].
  destruct (compareRows rows t scanArgs i j rest) as [out err]. cbn [fst] in *.
  cbn [stdoutLines map]. by rewrite <- IH.
Qed.

Lemma printed_lines_execute_nothing (lines : list string) :
  execStatements (map Stdout lines) = [] ∧ loggedStatements (map Stdout lines) = [].
Proof. induction lines as [|line lines IH]; [done|]. exact IH. Qed.

Lemma compareAutoIncrement_executes_nothing t :
  execStatements (compareAutoIncrement db t).1 = []
  ∧ loggedStatements (compareAutoIncrement db t).1 = [].
Proof.
  unfold compareAutoIncrement.
  destruct (Query db (nextRowIDQuery t)) as [rows|err]; [|done].
  destruct (Columns rows) as [cols|err]; [|done].
  destruct (findColumns cols 0 (-1) (-1)) as [i j].
  destruct (_ || _); [done|].
  pose proof (compareRows_only_prints rows t (makeScanArgs (List.length cols) i j) i j
                (Data rows)) as H.
  destruct (compareRows _ _ _ _ _ _) as [out err]. cbn [fst] in *.
  rewrite H. cbn [execStatements loggedStatements]. apply printed_lines_execute_nothing.
Qed.

Lemma execute_compare_executes_nothing tableInfos :
  execStatements (execute modeCompare db tableInfos) = []
  ∧ loggedStatements (execute modeCompare db tableInfos) = [].
Proof.
  induction tableInfos as [|t rest [IHe IHl]]; [done|].
  cbn [execute]. rewrite execStatements_app, loggedStatements_app, IHe, IHl, !app_nil_r.
  unfold executeOne. destruct (compareAutoIncrement_executes_nothing t) as [He Hl].
  destruct (compareAutoIncrement db t) as [ev err]. cbn [fst] in *.
  rewrite execStatements_app, loggedStatements_app, He, Hl. by destruct err.
Qed.

Lemma execute_compare_prints tableInfos :
  stdoutLines (execute modeCompare db tableInfos)
  = flat_map (fun t => stdoutLines (compareAutoIncrement db t).1) tableInfos.
Proof.
  induction tableInfos as [|t rest IH]; [done|].
  cbn [execute flat_map]. rewrite stdoutLines_app, IH. f_equal.
  unfold executeOne. destruct (compareAutoIncrement db t) as [ev err]. cbn [fst].
  rewrite stdoutLines_app. destruct err; cbn; by rewrite app_nil_r.
Qed.

Lemma execute_rebase_statements tableInfos :
  execStatements (execute modeRebase db tableInfos) = map rebaseQuery tableInfos
  ∧ loggedStatements (execute modeRebase db tableInfos) = map rebaseQuery tableInfos
  ∧ stdoutLines (execute modeRebase db tableInfos) = [].
Proof.
  induction tableInfos as [|t rest (IHe & IHl & IHs)]; [done|].
  cbn [execute map].
  rewrite execStatements_app, loggedStatements_app, stdoutLines_app, IHe, IHl, IHs.
  unfold executeOne, rebaseAutoIncrement. by destruct (Exec db (rebaseQuery t)).
Qed.

(** The run of a valid mode over an open connection, phase by phase. *)
Lemma main_phases f m :
  parseMode (modeString f) = Some m →
  Open db (dataSourceName f) = None →
  main f db
  = match m with modeCompare => [Stdout header] | modeRebase => [] end
    ++ [Log (LogTargetSchemas (Split (schemaList f))); SqlOpen (dataSourceName f);
        Log LogConnected]
    ++ (collectSchemas db (Split (schemaList f)) []).1
    ++ [Log LogCollected; Log LogStarting]
    ++ execute m db (collectSchemas db (Split (schemaList f)) []).2
    ++ [Log LogFinished].
Proof.
  intros Hm Ho. unfold main. rewrite Hm, Ho.
  by destruct (collectSchemas db (Split (schemaList f)) []).
Qed.
End WholeRun.

(** Pushing the readers of a trace through its phases. *)
Ltac read_trace :=
  repeat (progress cbn [app execStatements loggedStatements stdoutLines statementsSent
                          queryRowStatements]
          || rewrite execStatements_app || rewrite loggedStatements_app
          || rewrite stdoutLines_app || rewrite statementsSent_app
          || rewrite queryRowStatements_app).

Lemma collection_phase_events_of (db : DB) (schemas : list string) :
  execStatements (Audit.collectSchemas db schemas []).1 = []
  ∧ loggedStatements (Audit.collectSchemas db schemas []).1 = []
  ∧ stdoutLines (Audit.collectSchemas db schemas []).1 = [].
Proof.
  rewrite collectSchemas_closed. cbn [fst].
  apply collection_events_read_nothing_else, collection_is_read_only.
Qed.

(** X11: a run in rebase mode over an open connection passes to [db.Exec]
    the rebase statement of every collected fact, in the order of the facts,
    whether earlier statements failed or not; the statements it logs are the
    statements it executes; and it prints nothing on standard output. *)
Theorem rebase_run_executes_every_fact {lib : GoStrings} (f : Audit.flags) (db : DB) :
  Audit.parseMode (Audit.modeString f) = Some Audit.modeRebase →
  Open db (Audit.dataSourceName f) = None →
  execStatements (Audit.main f db)
  = map Audit.rebaseQuery (Audit.collectSchemas db (Split (Audit.schemaList f)) []).2
  ∧ loggedStatements (Audit.main f db) = execStatements (Audit.main f db)
  ∧ stdoutLines (Audit.main f db) = [].
Proof.
  intros Hm Ho. rewrite (main_phases db f _ Hm Ho).
  destruct (collection_phase_events_of db (Split (Audit.schemaList f))) as (He & Hl & Hs).
  destruct (execute_rebase_statements db
              (Audit.collectSchemas db (Split (Audit.schemaList f)) []).2) as (Hxe & Hxl & Hxs).
  read_trace. rewrite He, Hl, Hs, Hxe, Hxl, Hxs. cbn. by rewrite !app_nil_r.
Qed.

Lemma rebase_run_executes_every_fact_witness :
  execStatements (Audit.main (auditFlags "rebase" "db") twoTables)
  = ["ALTER TABLE `db`.`a` AUTO_INCREMENT = 2"; "ALTER TABLE `db`.`b` AUTO_INCREMENT = 2"].
Proof.
  exact (proj1 (rebase_run_executes_every_fact (auditFlags "rebase" "db") twoTables
                  eq_refl eq_refl)).
Defined.

(** X12: a run in compare mode never passes a statement to [db.Exec] and
    never logs one, whatever the server answers and whether the connection
    opens or not. *)
Theorem compare_run_changes_nothing {lib : GoStrings} (f : Audit.flags) (db : DB) :
  Audit.parseMode (Audit.modeString f) = Some Audit.modeCompare →
  execStatements (Audit.main f db) = [] ∧ loggedStatements (Audit.main f db) = [].
Proof.
  intros Hm. destruct (Open db (Audit.dataSourceName f)) as [err|] eqn:Ho.
  - unfold Audit.main. rewrite Hm, Ho. done.
  - rewrite (main_phases db f _ Hm Ho).
    destruct (collection_phase_events_of db (Split (Audit.schemaList f))) as (He & Hl & _).
    destruct (execute_compare_executes_nothing db
                (Audit.collectSchemas db (Split (Audit.schemaList f)) []).2) as (Hxe & Hxl).
    read_trace. by rewrite He, Hl, Hxe, Hxl.
Qed.

Lemma compare_run_changes_nothing_witness :
  execStatements (Audit.main (auditFlags "compare" "db") exampleServer) = []
  ∧ loggedStatements (Audit.main (auditFlags "compare" "db") exampleServer) = [].
Proof.
  exact (compare_run_changes_nothing (auditFlags "compare" "db") exampleServer eq_refl).
Defined.

(** X13: standard output of a run in compare mode is the header line
    followed, when the connection opens, by the records of the collected
    facts in the order of the facts; the header is printed before the
    connection is tried, so it is there when the connection fails too. *)
Theorem compare_run_prints_header_then_records {lib : GoStrings} (f : Audit.flags) (db : DB) :
  Audit.parseMode (Audit.modeString f) = Some Audit.modeCompare →
  stdoutLines (Audit.main f db)
  = Audit.header ::
    match Open db (Audit.dataSourceName f) with
    | Some _ => []
    | None =>
        flat_map (fun t => stdoutLines (Audit.compareAutoIncrement db t).1)
                 (Audit.collectSchemas db (Split (Audit.schemaList f)) []).2
    end.
Proof.
  intros Hm. destruct (Open db (Audit.dataSourceName f)) as [err|] eqn:Ho.
  - unfold Audit.main. rewrite Hm, Ho. done.
  - rewrite (main_phases db f _ Hm Ho).
    destruct (collection_phase_events_of db (Split (Audit.schemaList f))) as (_ & _ & Hs).
    read_trace. rewrite Hs, execute_compare_prints. cbn. by rewrite app_nil_r.
Qed.

Lemma compare_run_prints_header_then_records_witness :
  stdoutLines (Audit.main (auditFlags "compare" "db") unreachableServer) = [Audit.header].
Proof.
  exact (compare_run_prints_header_then_records (auditFlags "compare" "db")
           unreachableServer eq_refl).
Defined.

(** X14: when the connection cannot be opened, a run of either variant ends
    with the fatal log line right after [sql.Open]: no schema is enumerated,
    no maximum is looked up and no statement is executed. *)
Theorem no_connection_no_statement {lib : GoStrings} (f : Audit.flags) (g : ForceRebase.flags) (db : DB)
    (m : Audit.mode) (err err' : error) (order : list (ForceRebase.tableIdentifier * Z)) :
  Audit.parseMode (Audit.modeString f) = Some m →
  Open db (Audit.dataSourceName f) = Some err →
  Open db (ForceRebase.dataSourceName g) = Some err' →
  (∃ banner, Audit.main f db
             = banner ++ [Log (LogTargetSchemas (Split (Audit.schemaList f)));
                          SqlOpen (Audit.dataSourceName f); Fatal (LogOpenError err)]
             ∧ Forall (fun e => touchesDatabase e = false) banner)
  ∧ statementsSent (Audit.main f db) = []
  ∧ queryRowStatements (Audit.main f db) = []
  ∧ ForceRebase.main g db order
    = [Log (LogTargetSchemas (Split (ForceRebase.schemaList g)));
       SqlOpen (ForceRebase.dataSourceName g); Fatal (LogOpenError err')].
Proof.
  intros Hm Ho Ho'. unfold Audit.main, ForceRebase.main. rewrite Hm, Ho, Ho'.
  split; [|by destruct m].
  destruct m; eexists; (split; [reflexivity|]); repeat constructor.
Qed.

Lemma no_connection_no_statement_witness :
  statementsSent (Audit.main (auditFlags "rebase" "db") unreachableServer) = [].
Proof.
  exact (proj1 (proj2 (no_connection_no_statement (auditFlags "rebase" "db")
                         (rebaseFlags false "db") unreachableServer Audit.modeRebase
                         (OtherError "invalid DSN") (OtherError "invalid DSN") []
                         eq_refl eq_refl eq_refl))).
Defined.

(** ** The map of the map-based variant *)

Section MapEntries.
Import ForceRebase.
Variable db : DB.

(** The value that the server gives for the table of a key. *)
Let observed (k : tableIdentifier) : Z := Audit.observedMax db (Schema k) (Table k).

Lemma collectTables_keeps schema tables maxRowIDs k :
  maxRowIDs !! k = Some (observed k) →
  (collectTables db schema tables maxRowIDs).2 !! k = Some (observed k).
Proof.
  revert maxRowIDs. induction tables as [|table rest IH]; intros maxRowIDs Hk; [done|].
  cbn [collectTables].
  destruct (getMaxRowID db schema table) as [ev [maxID err]] eqn:Hg.
  destruct (maxID =? 0).
  - specialize (IH maxRowIDs Hk). by destruct (collectTables db schema rest maxRowIDs).
  - specialize (IH (<[MkTableIdentifier schema table := maxID]> maxRowIDs)).
    destruct (collectTables db schema rest _) as [ev' m']. apply IH.
    destruct (decide (MkTableIdentifier schema table = k)) as [<-|Hne].
    + rewrite lookup_insert_eq. unfold observed, Audit.observedMax. cbn. by rewrite Hg.
    + by rewrite lookup_insert_ne.
Qed.

Lemma collectTables_inserts schema tables maxRowIDs table :
  In table tables →
  Audit.observedMax db schema table ≠ 0 →
  (collectTables db schema tables maxRowIDs).2 !! MkTableIdentifier schema table
  = Some (Audit.observedMax db schema table).
Proof.
  revert maxRowIDs. induction tables as [|table0 rest IH]; intros maxRowIDs Hin Hne; [done|].
  destruct Hin as [->|Hin].
  - cbn [collectTables]. unfold Audit.observedMax in *.
    destruct (getMaxRowID db schema table) as [ev [maxID err]] eqn:Hg. cbn [fst snd] in *.
    destruct (Z.eqb_spec maxID 0); [done|].
    pose proof (collectTables_keeps schema rest
                  (<[MkTableIdentifier schema table := maxID]> maxRowIDs)
                  (MkTableIdentifier schema table)) as Hkeep.
    destruct (collectTables db schema rest _) as [ev' m']. cbn [snd] in *.
    unfold observed, Audit.observedMax in Hkeep. cbn in Hkeep. rewrite Hg in Hkeep.
    apply Hkeep. by rewrite lookup_insert_eq.
  - cbn [collectTables].
    destruct (getMaxRowID db schema table0) as [ev [maxID err]].
    destruct (maxID =? 0).
    + specialize (IH maxRowIDs Hin Hne). by destruct (collectTables db schema rest maxRowIDs).
    + specialize (IH (<[MkTableIdentifier schema table0 := maxID]> maxRowIDs) Hin Hne).
      by destruct (collectTables db schema rest _).
Qed.

Lemma collectTables_origin schema tables maxRowIDs k v :
  (collectTables db schema tables maxRowIDs).2 !! k = Some v →
  maxRowIDs !! k = Some v
  ∨ ∃ table, In table tables ∧ k = MkTableIdentifier schema table
             ∧ Audit.observedMax db schema table ≠ 0
             ∧ v = Audit.observedMax db schema table.
Proof.
  revert maxRowIDs. induction tables as [|table0 rest IH]; intros maxRowIDs H; [by left|].
  cbn [collectTables] in H.
  destruct (getMaxRowID db schema table0) as [ev [maxID err]] eqn:Hg.
  destruct (Z.eqb_spec maxID 0) as [Hz|Hnz].
  - specialize (IH maxRowIDs). destruct (collectTables db schema rest maxRowIDs) as [ev' m'].
    destruct (IH H) as [Hm|(table & Hin & -> & Hne & ->)]; [by left|].
    right. exists table. split; [by right|done].
  - specialize (IH (<[MkTableIdentifier schema table0 := maxID]> maxRowIDs)).
    destruct (collectTables db schema rest _) as [ev' m'].
    destruct (IH H) as [Hm|(table & Hin & -> & Hne & ->)].
    + destruct (decide (MkTableIdentifier schema table0 = k)) as [<-|Hk].
      * rewrite lookup_insert_eq in Hm. injection Hm as <-.
        right. exists table0. unfold Audit.observedMax. rewrite Hg.
        split; [by left|done].
      * rewrite lookup_insert_ne in Hm by done. by left.
    + right. exists table. split; [by right|done].
Qed.

Lemma collectSchemas_keeps schemas maxRowIDs k :
  maxRowIDs !! k = Some (observed k) →
  (collectSchemas db schemas maxRowIDs).2 !! k = Some (observed k).
Proof.
  revert maxRowIDs. induction schemas as [|schema rest IH]; intros maxRowIDs Hk; [done|].
  cbn [collectSchemas].
  destruct (getTablesInSchema db schema) as [ev [tables|err]].
  - pose proof (collectTables_keeps schema tables maxRowIDs k Hk) as Ht.
    destruct (collectTables db schema tables maxRowIDs) as [evt m1].
    specialize (IH m1 Ht). by destruct (collectSchemas db rest m1).
  - specialize (IH maxRowIDs Hk). by destruct (collectSchemas db rest maxRowIDs).
Qed.

Lemma collectSchemas_inserts schemas maxRowIDs schema tables table :
  In schema schemas →
  (getTablesInSchema db schema).2 = Ok tables →
  In table tables →
  Audit.observedMax db schema table ≠ 0 →
  (collectSchemas db schemas maxRowIDs).2 !! MkTableIdentifier schema table
  = Some (Audit.observedMax db schema table).
Proof.
  revert maxRowIDs. induction schemas as [|schema0 rest IH];
    intros maxRowIDs Hs Htables Hin Hne; [done|].
  destruct Hs as [->|Hs].
  - cbn [collectSchemas].
    destruct (getTablesInSchema db schema) as [ev r]. cbn [snd] in Htables. subst r.
    pose proof (collectTables_inserts schema tables maxRowIDs table Hin Hne) as Ht.
    destruct (collectTables db schema tables maxRowIDs) as [evt m1].
    pose proof (collectSchemas_keeps rest m1 (MkTableIdentifier schema table) Ht) as Hkeep.
    by destruct (collectSchemas db rest m1).
  - cbn [collectSchemas].
    destruct (getTablesInSchema db schema0) as [ev [tables0|err]].
    + destruct (collectTables db schema0 tables0 maxRowIDs) as [evt m1].
      specialize (IH m1 Hs Htables Hin Hne). by destruct (collectSchemas db rest m1).
    + specialize (IH maxRowIDs Hs Htables Hin Hne).
      by destruct (collectSchemas db rest maxRowIDs).
Qed.

Lemma collectSchemas_origin schemas maxRowIDs k v :
  (collectSchemas db schemas maxRowIDs).2 !! k = Some v →
  maxRowIDs !! k = Some v
  ∨ ∃ schema tables table,
      In schema schemas ∧ (getTablesInSchema db schema).2 = Ok tables ∧ In table tables
      ∧ k = MkTableIdentifier schema table
      ∧ Audit.observedMax db schema table ≠ 0
      ∧ v = Audit.observedMax db schema table.
Proof.
  revert maxRowIDs. induction schemas as [|schema0 rest IH]; intros maxRowIDs H; [by left|].
  cbn [collectSchemas] in H.
  destruct (getTablesInSchema db schema0) as [ev [tables0|err]] eqn:Hg.
  - pose proof (collectTables_origin schema0 tables0 maxRowIDs k v) as Ht.
    destruct (collectTables db schema0 tables0 maxRowIDs) as [evt m1].
    specialize (IH m1). destruct (collectSchemas db rest m1) as [ev' m'].
    destruct (IH H) as [Hm|(schema & tables & table & Hs & Htables & Hin & Hrest)].
    + destruct (Ht Hm) as [Hm0|(table & Hin & -> & Hne & ->)]; [by left|].
      right. exists schema0, tables0, table. rewrite Hg. split; [by left|done].
    + right. exists schema, tables, table. split; [by right|done].
  - specialize (IH maxRowIDs). destruct (collectSchemas db rest maxRowIDs) as [ev' m'].
    destruct (IH H) as [Hm|(schema & tables & table & Hs & Hrest)]; [by left|].
    right. exists schema, tables, table. split; [by right|done].
Qed.

Lemma map_entry_iff_gen schemas schema table v :
  (collectSchemas db schemas ∅).2 !! MkTableIdentifier schema table = Some v ↔
  ∃ tables,
    In schema schemas ∧ (getTablesInSchema db schema).2 = Ok tables ∧ In table tables
    ∧ Audit.observedMax db schema table ≠ 0
    ∧ v = Audit.observedMax db schema table.
Proof.
  split.
  - intros H. apply collectSchemas_origin in H
      as [H|(schema' & tables & table' & Hs & Htables & Hin & [= -> ->] & Hne & ->)].
    + by rewrite lookup_empty in H.
    + eauto 10.
  - intros (tables & Hs & Htables & Hin & Hne & ->).
    by apply (collectSchemas_inserts schemas ∅ schema tables table).
Qed.
End MapEntries.

(** X15: the map that the map-based variant has collected holds an entry for
    a table exactly when the table is enumerated in a listed schema and its
    observed maximum row id is not zero, and the entry holds that maximum. *)
Theorem map_entry_iff (db : DB) (schemas : list string) (schema table : string) (v : Z) :
  (ForceRebase.collectSchemas db schemas ∅).2 !! ForceRebase.MkTableIdentifier schema table
  = Some v ↔
  ∃ tables,
    In schema schemas ∧ (getTablesInSchema db schema).2 = Ok tables ∧ In table tables
    ∧ Audit.observedMax db schema table ≠ 0
    ∧ v = Audit.observedMax db schema table.
Proof. apply map_entry_iff_gen. Qed.

(** X16: the collected map depends on which schemas are listed, not on their
    order nor on how often a schema is listed: two schema lists with the same
    members give the same map. *)
Theorem map_ignores_order_and_repetition (db : DB) (schemas1 schemas2 : list string) :
  (∀ schema, In schema schemas1 ↔ In schema schemas2) →
  (ForceRebase.collectSchemas db schemas1 ∅).2 = (ForceRebase.collectSchemas db schemas2 ∅).2.
Proof.
  intros Hsame. apply map_eq. intros [schema table]. apply option_eq. intros v.
  rewrite !map_entry_iff_gen. split; intros (tables & Hs & Hrest); exists tables;
    (split; [by apply Hsame|done]).
Qed.

Lemma map_ignores_order_and_repetition_witness :
  (ForceRebase.collectSchemas (oneTable 7 None) ["a"; "b"; "a"] ∅).2
  = (ForceRebase.collectSchemas (oneTable 7 None) ["b"; "a"] ∅).2.
Proof.
  apply (map_ignores_order_and_repetition (oneTable 7 None) ["a"; "b"; "a"] ["b"; "a"]).
  intros schema. cbn. tauto.
Defined.

(** X17: the two variants collect the same tables with the same values: the
    slice holds a fact for a table with the value [a] exactly when the map
    holds an entry for the table whose maximum has the [int64] successor [a];
    and for such a pair the two variants build the same rebase statement. *)
Theorem variants_collect_the_same (db : DB) (schemas : list string)
    (schema table : string) (a : Z) :
  (In (Audit.MkTableInfo schema table a) (Audit.collectSchemas db schemas []).2 ↔
   ∃ v, (ForceRebase.collectSchemas db schemas ∅).2
          !! ForceRebase.MkTableIdentifier schema table = Some v
        ∧ a = add64 v 1)
  ∧ Audit.rebaseQuery (Audit.MkTableInfo schema table a)
    = ForceRebase.alterQuery (ForceRebase.MkTableIdentifier schema table) a.
Proof.
  split; [|reflexivity].
  rewrite collected_fact_iff. cbn [Audit.Schema Audit.Table Audit.AutoInc]. split.
  - intros (tables & Hs & Htables & Hin & Hne & ->).
    exists (Audit.observedMax db schema table). split; [|done].
    apply map_entry_iff_gen. eauto 10.
  - intros (v & Hv & ->). apply map_entry_iff_gen in Hv as (tables & Hs & Ht & Hin & Hne & ->).
    eauto 10.
Qed.

(** ** Composition of the collection *)

(** X18: the slice of facts is only appended to.  Collecting over a list of
    schemas from a slice that already holds facts gives those facts followed
    by what the schemas give from an empty slice; and collecting over two
    lists one after the other is collecting over the first and then over the
    second, so a schema that is listed twice is collected twice. *)
Theorem collection_appends_in_order (db : DB) (schemas1 schemas2 : list string)
    (tableInfos : list Audit.tableInfo) :
  (Audit.collectSchemas db schemas1 tableInfos).2
  = tableInfos ++ (Audit.collectSchemas db schemas1 []).2
  ∧ Audit.collectSchemas db (schemas1 ++ schemas2) tableInfos
    = ((Audit.collectSchemas db schemas1 tableInfos).1
         ++ (Audit.collectSchemas db schemas2 []).1,
       tableInfos ++ (Audit.collectSchemas db schemas1 []).2
         ++ (Audit.collectSchemas db schemas2 []).2).
Proof.
  rewrite !collectSchemas_closed, !flat_map_app. cbn [fst snd app]. done.
Qed.

(** ** The update loop of the map-based variant *)

(** X19: without the dry-run flag and over an open connection, a run of the
    map-based variant passes to [db.Exec] exactly the statements it logs, in
    the same order, one for every entry that the loop visits, whether earlier
    statements failed or not. *)
Theorem real_run_executes_what_it_logs (f : ForceRebase.flags) (db : DB)
    (order : list (ForceRebase.tableIdentifier * Z)) :
  ForceRebase.dryRun f = false →
  Open db (ForceRebase.dataSourceName f) = None →
  execStatements (ForceRebase.main f db order)
  = map (fun entry => ForceRebase.alterQuery entry.1 (add64 entry.2 1)) order
  ∧ loggedStatements (ForceRebase.main f db order)
    = execStatements (ForceRebase.main f db order).
Proof.
  intros Hdry Ho. rewrite (main_logged_statements db f order Ho).
  assert (execStatements (ForceRebase.main f db order)
          = map (fun entry => ForceRebase.alterQuery entry.1 (add64 entry.2 1)) order) as ->;
    [|done].
  unfold ForceRebase.main. rewrite Ho, Hdry.
  pose proof (collectSchemas_no_exec db (Split (ForceRebase.schemaList f)) ∅) as [He _].
  read_trace. rewrite He, update_executes_statements. cbn. by rewrite app_nil_r.
Qed.

Lemma real_run_executes_what_it_logs_witness :
  execStatements
    (ForceRebase.main (rebaseFlags false "db") readOnlyServer
       [(ForceRebase.MkTableIdentifier "db" "b", 1); (ForceRebase.MkTableIdentifier "db" "a", 1)])
  = ["ALTER TABLE `db`.`b` AUTO_INCREMENT = 2"; "ALTER TABLE `db`.`a` AUTO_INCREMENT = 2"].
Proof.
  exact (proj1 (real_run_executes_what_it_logs (rebaseFlags false "db") readOnlyServer
                  [(ForceRebase.MkTableIdentifier "db" "b", 1);
                   (ForceRebase.MkTableIdentifier "db" "a", 1)] eq_refl eq_refl)).
Defined.

(** ** A rebase statement that fails *)

(** X20: when the server rejects the rebase statement of a fact, the loop
    logs the statement, passes it to [db.Exec], logs the error with the names
    of the schema and the table, and goes on with the next fact.  The
    slice-based variant logs the error inside the context that
    [rebaseAutoIncrement] adds; the map-based variant logs the error as the
    server gave it. *)
Theorem failed_rebase_is_logged_and_skipped {lib : GoStrings} (db : DB) (schema table : string) (a maxID : Z)
    (err err' : error) (rest : list Audit.tableInfo)
    (entries : list (ForceRebase.tableIdentifier * Z)) :
  Exec db (Audit.rebaseQuery (Audit.MkTableInfo schema table a)) = Some err →
  Exec db (ForceRebase.alterQuery (ForceRebase.MkTableIdentifier schema table)
             (add64 maxID 1)) = Some err' →
  Audit.execute Audit.modeRebase db (Audit.MkTableInfo schema table a :: rest)
  = [Log (LogStatement (Audit.rebaseQuery (Audit.MkTableInfo schema table a)));
     SqlExec (Audit.rebaseQuery (Audit.MkTableInfo schema table a));
     Log (LogActionError schema table
            (Errorf ("rebasing AUTO_INCREMENT for " +:+ schema +:+ "." +:+ table) err))]
    ++ Audit.execute Audit.modeRebase db rest
  ∧ ForceRebase.update false db ((ForceRebase.MkTableIdentifier schema table, maxID) :: entries)
    = [Log (LogStatement (ForceRebase.alterQuery (ForceRebase.MkTableIdentifier schema table)
                            (add64 maxID 1)));
       SqlExec (ForceRebase.alterQuery (ForceRebase.MkTableIdentifier schema table)
                  (add64 maxID 1));
       Log (LogActionError schema table err')]
      ++ ForceRebase.update false db entries.
Proof.
  intros He He'. split.
  - cbn [Audit.execute]. unfold Audit.executeOne, Audit.rebaseAutoIncrement.
    rewrite He. reflexivity.
  - cbn [ForceRebase.update]. unfold ForceRebase.updateOne. cbn [negb].
    rewrite He'. reflexivity.
Qed.

Lemma failed_rebase_is_logged_and_skipped_witness :
  Audit.execute Audit.modeRebase readOnlyServer
    [Audit.MkTableInfo "db" "a" 2; Audit.MkTableInfo "db" "b" 2]
  = [Log (LogStatement "ALTER TABLE `db`.`a` AUTO_INCREMENT = 2");
     SqlExec "ALTER TABLE `db`.`a` AUTO_INCREMENT = 2";
     Log (LogActionError "db" "a"
            (Errorf "rebasing AUTO_INCREMENT for db.a"
                    (MySQLError 1142 "ALTER command denied")))]
    ++ Audit.execute Audit.modeRebase readOnlyServer [Audit.MkTableInfo "db" "b" 2].
Proof.
  exact (proj1 (failed_rebase_is_logged_and_skipped readOnlyServer "db" "a" 2 1
                  (MySQLError 1142 "ALTER command denied")
                  (MySQLError 1142 "ALTER command denied")
                  [Audit.MkTableInfo "db" "b" 2] [] eq_refl eq_refl)).
Defined.

(** ** When a comparison succeeds *)

Lemma compareRows_ok_inv (rows : Rows) (t : Audit.tableInfo) (cols : list string)
    (i j : Z) (data : list (list cell)) :
  (Audit.compareRows rows t (Audit.makeScanArgs (List.length cols) i j) i j data).2 = None →
  ∃ views, Forall2 (Audit.scansTo cols i j) data views.
Proof.
  induction data as [|row rest IH]; intros H; [by exists []|].
  cbn [Audit.compareRows] in H.
  unfold Scan in H.
  destruct (scan_cells (Audit.makeScanArgs (List.length cols) i j) row) as [vs|] eqn:Hscan;
    [|discriminate H].
  assert ((Audit.compareRows rows t (Audit.makeScanArgs (List.length cols) i j) i j rest).2
          = None) as Hrest.
  { destruct (negb _); [done|].
    by destruct (Audit.compareRows rows t _ i j rest). }
  destruct (IH Hrest) as [views Hviews].
  exists ((Audit.stringAt vs i, Audit.int64At vs j) :: views).
  constructor; [|done]. by exists vs.
Qed.

(** X21: the comparison of a table returns no error exactly when its query
    succeeds, the columns can be read, the search over the column names
    (through [strings.ToUpper], whatever it maps a name to) finds both
    required columns, every row scans, and the iteration ends without an
    error. *)
Theorem compare_succeeds_iff {lib : GoStrings} (db : DB) (t : Audit.tableInfo) :
  (Audit.compareAutoIncrement db t).2 = None ↔
  ∃ rows cols i j views,
    Query db (Audit.nextRowIDQuery t) = Ok rows
    ∧ Columns rows = Ok cols
    ∧ Audit.findColumns cols 0 (-1) (-1) = (i, j)
    ∧ i ≠ -1 ∧ j ≠ -1
    ∧ Forall2 (Audit.scansTo cols i j) (Data rows) views
    ∧ Err rows = None.
Proof.
  split.
  - unfold Audit.compareAutoIncrement.
    destruct (Query db (Audit.nextRowIDQuery t)) as [rows|err]; [|done].
    destruct (Columns rows) as [cols|err] eqn:Hc; [|done].
    destruct (Audit.findColumns cols 0 (-1) (-1)) as [i j] eqn:Hf.
    destruct (Z.eqb_spec i (-1)); [done|]. destruct (Z.eqb_spec j (-1)); [done|].
    cbn [orb].
    pose proof (compareRows_ok_inv rows t cols i j (Data rows)) as Hinv.
    destruct (Audit.compareRows rows t _ i j (Data rows)) as [out [e|]]; [done|].
    cbn [snd] in *. destruct (Err rows) eqn:Herr; [done|]. intros _.
    destruct (Hinv eq_refl) as [views Hviews].
    exists rows, cols, i, j, views. done.
  - intros (rows & cols & i & j & views & Hq & Hc & Hf & Hi & Hj & Hrows & Herr).
    by rewrite (compareAutoIncrement_closed db t rows cols i j views).
Qed.

(** ** When a row scans *)

Lemma scan_cells_length (ds : list dest) (row : list cell) (vs : list scanned) :
  scan_cells ds row = Some vs →
  List.length row = List.length ds ∧ List.length vs = List.length ds.
Proof.
  revert row vs. induction ds as [|d ds IH]; intros [|c row] vs H; cbn in H;
    try discriminate H.
  - by injection H as <-.
  - destruct (scan_cell d c) as [v|]; [|discriminate H].
    destruct (scan_cells ds row) as [vs'|] eqn:Hrest; [|discriminate H].
    injection H as <-. destruct (IH row vs' Hrest) as [Hr Hv]. cbn. by rewrite Hr, Hv.
Qed.

Lemma scan_cells_lookup (ds : list dest) (row : list cell) (vs : list scanned)
    (m : nat) (d : dest) (c : cell) :
  scan_cells ds row = Some vs → ds !! m = Some d → row !! m = Some c →
  ∃ v, vs !! m = Some v ∧ scan_cell d c = Some v.
Proof.
  revert row vs m. induction ds as [|d0 ds IH]; intros [|c0 row] vs m H Hd Hc; cbn in H;
    try discriminate H; try discriminate Hd.
  destruct (scan_cell d0 c0) as [v0|] eqn:H0; [|discriminate H].
  destruct (scan_cells ds row) as [vs'|] eqn:Hrest; [|discriminate H].
  injection H as <-. destruct m as [|m].
  - injection Hd as <-. injection Hc as <-. by exists v0.
  - apply (IH row vs' m Hrest Hd Hc).
Qed.

Lemma scan_cells_exists (ds : list dest) (row : list cell) :
  List.length row = List.length ds →
  (∀ m d c, ds !! m = Some d → row !! m = Some c → is_Some (scan_cell d c)) →
  ∃ vs, scan_cells ds row = Some vs.
Proof.
  revert row. induction ds as [|d ds IH]; intros [|c row] Hlen Hall; try discriminate Hlen.
  - by exists [].
  - destruct (Hall 0%nat d c eq_refl eq_refl) as [v Hv].
    destruct (IH row) as [vs Hvs].
    + by injection Hlen.
    + intros m d' c' Hd Hc. apply (Hall (S m) d' c' Hd Hc).
    + exists (v :: vs). cbn. by rewrite Hv, Hvs.
Qed.

Lemma map_seq_lookup {A : Type} (g : nat → A) (n k m : nat) :
  (m < n)%nat → map g (seq k n) !! m = Some (g (k + m)%nat).
Proof.
  revert k m. induction n as [|n IH]; intros k m Hlt; [lia|].
  destruct m as [|m]; cbn.
  - by rewrite Nat.add_0_r.
  - rewrite IH by lia. f_equal. f_equal. lia.
Qed.

Lemma makeScanArgs_lookup (n : nat) (i j : Z) (m : nat) :
  (m < n)%nat →
  Audit.makeScanArgs n i j !! m
  = Some (if Z.of_nat m =? i then DString
          else if Z.of_nat m =? j then DInt64 else DRawBytes).
Proof. intros Hlt. unfold Audit.makeScanArgs. by rewrite map_seq_lookup. Qed.

Lemma makeScanArgs_length (n : nat) (i j : Z) : List.length (Audit.makeScanArgs n i j) = n.
Proof. unfold Audit.makeScanArgs. by rewrite length_map, length_seq. Qed.

(** X22: with the two columns found at different positions within the
    columns, a row scans, and leaves the scheme name [s] and the next global
    row id [n] in the destinations, exactly when it has as many values as
    there are columns, its value under ID_TYPE reads as the string [s] and
    its value under NEXT_GLOBAL_ROW_ID reads as the integer [n]; the other
    values, scanned as raw bytes, never matter. *)
Theorem row_scans_iff (cols : list string) (i j : Z) (row : list cell) (s : string) (n : Z) :
  0 <= i < Z.of_nat (List.length cols) →
  0 <= j < Z.of_nat (List.length cols) →
  i ≠ j →
  Audit.scansTo cols i j row (s, n) ↔
  List.length row = List.length cols
  ∧ (∃ ci, row !! Z.to_nat i = Some ci ∧ as_string ci = Some s)
  ∧ (∃ cj, row !! Z.to_nat j = Some cj ∧ as_int64 cj = Some n).
Proof.
  intros Hi Hj Hij.
  assert (Audit.makeScanArgs (List.length cols) i j !! Z.to_nat i = Some DString) as Hdi.
  { rewrite makeScanArgs_lookup by lia. rewrite Z2Nat.id by lia. by rewrite Z.eqb_refl. }
  assert (Audit.makeScanArgs (List.length cols) i j !! Z.to_nat j = Some DInt64) as Hdj.
  { rewrite makeScanArgs_lookup by lia. rewrite Z2Nat.id by lia.
    destruct (Z.eqb_spec j i); [congruence|]. by rewrite Z.eqb_refl. }
  unfold Audit.scansTo, Scan. cbn [fst snd]. split.
  - intros (vs & Hscan & Hs & Hn).
    destruct (scan_cells _ row) as [vs'|] eqn:Hcells; [|discriminate Hscan].
    injection Hscan as ->.
    destruct (scan_cells_length _ _ _ Hcells) as [Hlen _].
    rewrite makeScanArgs_length in Hlen. split; [done|].
    destruct (lookup_lt_is_Some_2 row (Z.to_nat i)) as [ci Hci]; [lia|].
    destruct (lookup_lt_is_Some_2 row (Z.to_nat j)) as [cj Hcj]; [lia|].
    destruct (scan_cells_lookup _ _ _ _ _ _ Hcells Hdi Hci) as (vi & Hvi & Hsi).
    destruct (scan_cells_lookup _ _ _ _ _ _ Hcells Hdj Hcj) as (vj & Hvj & Hsj).
    cbn in Hsi, Hsj. unfold Audit.stringAt in Hs. unfold Audit.int64At in Hn.
    rewrite Hvi in Hs. rewrite Hvj in Hn.
    destruct (as_string ci) as [s'|] eqn:Hsi'; [|discriminate Hsi].
    destruct (as_int64 cj) as [n'|] eqn:Hnj'; [|discriminate Hsj].
    cbn in Hsi, Hsj. injection Hsi as <-. injection Hsj as <-. subst.
    split; [by exists ci|by exists cj].
  - intros (Hlen & (ci & Hci & Hsi) & (cj & Hcj & Hnj)).
    destruct (scan_cells_exists (Audit.makeScanArgs (List.length cols) i j) row)
      as [vs Hcells].
    + by rewrite makeScanArgs_length.
    + intros m d c Hd Hc. apply lookup_lt_Some in Hd as Hlt.
      rewrite makeScanArgs_length in Hlt. rewrite makeScanArgs_lookup in Hd by done.
      injection Hd as <-.
      destruct (Z.eqb_spec (Z.of_nat m) i) as [Hmi|_].
      * assert (m = Z.to_nat i) as -> by lia. rewrite Hci in Hc. injection Hc as <-.
        cbn. rewrite Hsi. by eexists.
      * destruct (Z.eqb_spec (Z.of_nat m) j) as [Hmj|_]; [|by eexists].
        assert (m = Z.to_nat j) as -> by lia. rewrite Hcj in Hc. injection Hc as <-.
        cbn. rewrite Hnj. by eexists.
    + exists vs. rewrite Hcells. split; [done|].
      destruct (scan_cells_lookup _ _ _ _ _ _ Hcells Hdi Hci) as (vi & Hvi & Hvsi).
      destruct (scan_cells_lookup _ _ _ _ _ _ Hcells Hdj Hcj) as (vj & Hvj & Hvsj).
      cbn in Hvsi, Hvsj. rewrite Hsi in Hvsi. rewrite Hnj in Hvsj.
      cbn in Hvsi, Hvsj. injection Hvsi as <-. injection Hvsj as <-.
      unfold Audit.stringAt, Audit.int64At. by rewrite Hvi, Hvj.
Qed.

Lemma row_scans_iff_witness :
  Audit.scansTo ["DB_NAME"; "NEXT_GLOBAL_ROW_ID"; "ID_TYPE"] 2 1
    [Cell None None; Cell (Some "50") (Some 50); Cell (Some "_TIDB_ROWID") None]
    ("_TIDB_ROWID", 50).
Proof.
  apply (row_scans_iff ["DB_NAME"; "NEXT_GLOBAL_ROW_ID"; "ID_TYPE"] 2 1); cbn; try lia.
  split; [reflexivity|]. split; eexists; split; reflexivity.
Defined.
